(** * mcr-sync: reconciliation of mc-router routes

    A shallow embedding of [src/index.ts].  One synchronization cycle
    ([syncRoutes]) reads the configuration, scans the Docker daemon, builds
    the desired route table, fetches the table mc-router currently holds and
    issues the POST and DELETE requests that reconcile the two.

    JavaScript values are embedded as follows.
    - Strings are [string]s holding the UTF-8 encoding of the text.  The
      characters the source looks for (',' and '.') are single bytes that
      occur in no longer encoding, and the white space that [trim] removes is
      the white space of ECMAScript, each code point in its encoding.
    - A [Map<string, string>] is a list of entries in insertion order
      ([JSMap.t]): iteration order decides the order of the requests.
    - A plain object enumerated with [Object.entries] is the list of its
      entries in enumeration order.
    - The asynchronous functions run to completion one after the other; they
      are functions on an explicit [World] that holds everything outside the
      process: the configuration file, the Docker daemon and mc-router. *)

From Stdlib Require Import Ascii String.
From stdpp Require Import gmap strings list fin_maps pretty.

Open Scope string_scope.
Open Scope list_scope.

(** ** JavaScript strings *)

Module JSString.

(** [s.includes(needle)] *)
Fixpoint includes (needle s : string) : bool :=
  String.prefix needle s ||
  match s with
  | "" => false
  | String _ s' => includes needle s'
  end.

(** [s.split(sep)] for a separator of one character. *)
Fixpoint split (sep : ascii) (s : string) : list string :=
  match s with
  | "" => [""]
  | String c s' =>
      if Ascii.eqb c sep then "" :: split sep s'
      else match split sep s' with
           | [] => [String c ""]
           | piece :: pieces => String c piece :: pieces
           end
  end.

(** The white space of ECMAScript (WhiteSpace and LineTerminator), each code
    point in its UTF-8 encoding. *)
Definition utf8 (bytes : list N) : list ascii := ascii_of_N <$> bytes.

Definition white_space : list (list ascii) :=
  utf8 <$>
    ([ [9]; [10]; [11]; [12]; [13]; [32];   (* TAB LF VT FF CR SPACE *)
       [194; 160];                           (* U+00A0 *)
       [225; 154; 128];                      (* U+1680 *)
       [226; 128; 128]; [226; 128; 129]; [226; 128; 130]; [226; 128; 131];
       [226; 128; 132]; [226; 128; 133]; [226; 128; 134]; [226; 128; 135];
       [226; 128; 136]; [226; 128; 137]; [226; 128; 138];  (* U+2000-200A *)
       [226; 128; 168]; [226; 128; 169];     (* U+2028 U+2029 *)
       [226; 128; 175];                      (* U+202F *)
       [226; 129; 159];                      (* U+205F *)
       [227; 128; 128];                      (* U+3000 *)
       [239; 187; 191] ]%N : list (list N)). (* U+FEFF *)

(** [l] without its prefix [p], when it starts with [p]. *)
Fixpoint strip_prefix (p l : list ascii) : option (list ascii) :=
  match p, l with
  | [], _ => Some l
  | a :: p', b :: l' => if Ascii.eqb a b then strip_prefix p' l' else None
  | _ :: _, [] => None
  end.

(** [l] without the first of [patterns] it starts with. *)
Fixpoint strip_any (patterns : list (list ascii)) (l : list ascii)
  : option (list ascii) :=
  match patterns with
  | [] => None
  | p :: patterns' =>
      match strip_prefix p l with
      | Some l' => Some l'
      | None => strip_any patterns' l
      end
  end.

(** Strip leading [patterns] as long as there is one, at most [fuel] times. *)
Fixpoint strip_leading (patterns : list (list ascii)) (fuel : nat)
    (l : list ascii) : list ascii :=
  match fuel with
  | 0 => l
  | S fuel' =>
      match strip_any patterns l with
      | Some l' => strip_leading patterns fuel' l'
      | None => l
      end
  end.

(** [s.trimStart()]; the length of [s] is fuel enough. *)
Definition trimStart (s : string) : string :=
  let l := list_ascii_of_string s in
  string_of_list_ascii (strip_leading white_space (length l) l).

(** [s.trimEnd()]: the same from the other end. *)
Definition trimEnd (s : string) : string :=
  let l := reverse (list_ascii_of_string s) in
  string_of_list_ascii
    (reverse (strip_leading (reverse <$> white_space) (length l) l)).

(** [s.trim()] *)
Definition trim (s : string) : string := trimEnd (trimStart s).

(** [Boolean(s)]: the empty string is the only falsy string. *)
Definition truthy (s : string) : bool :=
  match s with
  | "" => false
  | _ => true
  end.

(** [`${n}`] for an integer [n] below 1e21 in absolute value, where
    JavaScript prints every digit. *)
Definition of_number (n : Z) : string := pretty n.

End JSString.

(** ** JavaScript [Map<string, string>] *)

Module JSMap.

(** Entries in insertion order. *)
Definition t : Type := list (string * string).

(** [new Map()] *)
Definition empty : t := [].

(** [m.get(k)]; [None] is [undefined]. *)
Fixpoint get (k : string) (m : t) : option string :=
  match m with
  | [] => None
  | (k', v) :: m' => if decide (k = k') then Some v else get k m'
  end.

(** [m.has(k)] *)
Definition has (k : string) (m : t) : bool :=
  match get k m with
  | Some _ => true
  | None => false
  end.

(** [m.set(k, v)]: an existing key keeps its position, a new key goes last. *)
Fixpoint set (k v : string) (m : t) : t :=
  match m with
  | [] => [(k, v)]
  | (k', v') :: m' =>
      if decide (k = k') then (k, v) :: m' else (k', v') :: set k v m'
  end.

(** [m.entries()] *)
Definition entries (m : t) : list (string * string) := m.

(** [new Map(entries)] *)
Definition of_entries (l : list (string * string)) : t :=
  foldl (λ m '(k, v), set k v m) empty l.

(** What every [Map] satisfies: no key occurs twice. *)
Definition wf (m : t) : Prop := NoDup m.*1.

End JSMap.

(** ** Type definitions of the source *)

Record ManualServerConfig := {
  host : string;
  port : Z;
  (** [None]: the field is absent (or null) in the configuration. *)
  override_suffix : option (list string)
}.

Global Instance ManualServerConfig_eq_dec : EqDecision ManualServerConfig.
Proof. solve_decision. Defined.

Record Config := {
  default_domain_suffix : list string;
  (** [Object.entries(config.manual)], in enumeration order. *)
  manual : list (string * ManualServerConfig)
}.

(** [Object.entries] of the JSON object that [GET /routes] answers. *)
Definition McRouterRoutes : Type := list (string * string).

(** The parts of dockerode's [ContainerInfo] that the source reads. *)
Record Port := {
  PublicPort : option Z
}.

Record ContainerInfo := {
  Labels : gmap string string;
  Ports : option (list Port)
}.

(** ** Desired state *)

(** Lines 124-137: what one container adds to [routes]. *)
Definition scanContainer (DOCKER_HOST_IP : string)
    (routes : JSMap.t) (containerInfo : ContainerInfo) : JSMap.t :=
  match Labels containerInfo !! "router.slug" with
  | Some slugsLabel =>
      if JSString.truthy slugsLabel then
        let slugs :=
          filter (λ s, JSString.truthy s = true)
                 (JSString.trim <$> JSString.split "," slugsLabel) in
        let portData := Ports containerInfo ≫= head in
        match portData ≫= PublicPort with
        | Some publicPort =>
            if decide (publicPort = 0%Z) then routes
            else
              let backend :=
                DOCKER_HOST_IP +:+ ":" +:+ JSString.of_number publicPort in
              foldl (λ routes slug, JSMap.set slug backend routes) routes slugs
        | None => routes
        end
      else routes
  | None => routes
  end.

(** [getDockerRoutes], given what [docker.listContainers()] produced
    ([None] when it throws). *)
Definition dockerRoutesOf (DOCKER_HOST_IP : string)
    (containers : option (list ContainerInfo)) : JSMap.t :=
  match containers with
  | Some containers => foldl (scanContainer DOCKER_HOST_IP) JSMap.empty containers
  | None => JSMap.empty
  end.

(** Line 175. *)
Definition fullAddress (slug suffix : string) : string :=
  if JSString.includes "." suffix then slug else slug +:+ "." +:+ suffix.

(** Line 171. *)
Definition manualBackend (manualConfig : ManualServerConfig) : string :=
  host manualConfig +:+ ":" +:+ JSString.of_number (port manualConfig).

(** Line 172: [manualConfig.override_suffix || config.default_domain_suffix].
    An array is truthy whatever its length; only an absent field is falsy. *)
Definition manualSuffixes (config : Config)
    (manualConfig : ManualServerConfig) : list string :=
  match override_suffix manualConfig with
  | Some suffixes => suffixes
  | None => default_domain_suffix config
  end.

(** Lines 163-167. *)
Definition processDockerContainers (config : Config)
    (dockerRoutes desiredRoutes : JSMap.t) : JSMap.t :=
  foldl (λ desiredRoutes '(slug, backend),
           foldl (λ desiredRoutes suffix,
                    JSMap.set (slug +:+ "." +:+ suffix) backend desiredRoutes)
                 desiredRoutes (default_domain_suffix config))
        desiredRoutes (JSMap.entries dockerRoutes).

(** Lines 170-178. *)
Definition processManualEntries (config : Config)
    (desiredRoutes : JSMap.t) : JSMap.t :=
  foldl (λ desiredRoutes '(slug, manualConfig),
           let backend := manualBackend manualConfig in
           let suffixes := manualSuffixes config manualConfig in
           foldl (λ desiredRoutes suffix,
                    JSMap.set (fullAddress slug suffix) backend desiredRoutes)
                 desiredRoutes suffixes)
        desiredRoutes (manual config).

(** Lines 160-178: [desiredRoutes] as it stands before the router is asked. *)
Definition buildDesiredRoutes (config : Config) (dockerRoutes : JSMap.t) : JSMap.t :=
  processManualEntries config
    (processDockerContainers config dockerRoutes JSMap.empty).

(** ** The world outside the process *)

(** A request that changes mc-router's table. *)
Inductive Call :=
| AddOrUpdateRoute (serverAddress backend : string)
| DeleteRoute (serverAddress : string).

Global Instance Call_eq_dec : EqDecision Call.
Proof. solve_decision. Defined.

Record World := {
  (** The parsed [config.yml]; [None] when it cannot be read or parsed. *)
  config_file : option Config;
  (** What [docker.listContainers()] answers; [None] when it throws. *)
  docker_containers : option (list ContainerInfo);
  (** [process.env.DOCKER_HOST_IP] *)
  env_DOCKER_HOST_IP : option string;
  (** The routing table mc-router holds. *)
  router : gmap string string;
  (** The fate of the coming HTTP exchanges with mc-router, in order:
      [true] is an exchange that fails (no connection, or a status that is
      not 2xx).  Once the list is used up every exchange succeeds. *)
  outages : list bool;
  (** The POST and DELETE requests sent so far, oldest first. *)
  issued : list Call;
  (** The module variable [lastKnownConfig]. *)
  lastKnownConfig : option Config
}.

Definition with_router (r : gmap string string) (w : World) : World :=
  {| config_file := config_file w; docker_containers := docker_containers w;
     env_DOCKER_HOST_IP := env_DOCKER_HOST_IP w; router := r;
     outages := outages w; issued := issued w;
     lastKnownConfig := lastKnownConfig w |}.

Definition with_outages (o : list bool) (w : World) : World :=
  {| config_file := config_file w; docker_containers := docker_containers w;
     env_DOCKER_HOST_IP := env_DOCKER_HOST_IP w; router := router w;
     outages := o; issued := issued w;
     lastKnownConfig := lastKnownConfig w |}.

Definition with_issued (c : list Call) (w : World) : World :=
  {| config_file := config_file w; docker_containers := docker_containers w;
     env_DOCKER_HOST_IP := env_DOCKER_HOST_IP w; router := router w;
     outages := outages w; issued := c;
     lastKnownConfig := lastKnownConfig w |}.

Definition with_lastKnownConfig (c : option Config) (w : World) : World :=
  {| config_file := config_file w; docker_containers := docker_containers w;
     env_DOCKER_HOST_IP := env_DOCKER_HOST_IP w; router := router w;
     outages := outages w; issued := issued w;
     lastKnownConfig := c |}.

(** Asynchronous functions, run to completion: state passing over [World]. *)
Definition M (A : Type) : Type := World → A * World.

Global Instance M_ret : MRet M := λ A x w, (x, w).
Global Instance M_bind : MBind M := λ A B f m w, let (x, w') := m w in f x w'.

(** [for (const x of l) { s = body(s, x) }] with awaits inside [body]. *)
Fixpoint for_of {A S : Type} (body : S → A → M S) (s : S) (l : list A) : M S :=
  match l with
  | [] => mret s
  | x :: l' => s' ← body s x; for_of body s' l'
  end.

(** Line 10: [process.env.DOCKER_HOST_IP || '127.0.0.1']. *)
Definition DOCKER_HOST_IP (w : World) : string :=
  match env_DOCKER_HOST_IP w with
  | Some ip => if JSString.truthy ip then ip else "127.0.0.1"
  | None => "127.0.0.1"
  end.

(** One HTTP exchange with mc-router; the result tells whether it went
    through with a 2xx status. *)
Definition exchange : M bool := λ w,
  match outages w with
  | failed :: rest => (negb failed, with_outages rest w)
  | [] => (true, w)
  end.

(** Modelled from the spec: mc-router is a collaborator outside this
    repository.  [GET /routes] answers its table as one JSON object; the
    entries come in the order the object enumerates them. *)
Definition router_get : M McRouterRoutes := λ w, (map_to_list (router w), w).

(** Modelled from the spec: an accepted [POST /routes] adds the entry of
    [serverAddress] or replaces it. *)
Definition router_post (serverAddress backend : string) : M unit := λ w,
  (tt, with_router (<[serverAddress := backend]> (router w)) w).

(** Modelled from the spec: an accepted [DELETE /routes/{serverAddress}]
    removes the entry of [serverAddress].  A request that fails leaves the
    table as it was. *)
Definition router_delete (serverAddress : string) : M unit := λ w,
  (tt, with_router (delete serverAddress (router w)) w).

(** The process sends a request: it is recorded whatever its fate. *)
Definition send (c : Call) : M unit := λ w, (tt, with_issued (issued w ++ [c]) w).

(** ** The functions of the source *)

Definition getMcRouterRoutes : M (option McRouterRoutes) :=
  ok ← exchange;
  if ok : bool then routes ← router_get; mret (Some routes)
  else mret None.

Definition addOrUpdateRoute (serverAddress backend : string) : M unit :=
  send (AddOrUpdateRoute serverAddress backend);;
  ok ← exchange;
  if ok : bool then router_post serverAddress backend else mret tt.

Definition deleteRoute (serverAddress : string) : M unit :=
  send (DeleteRoute serverAddress);;
  ok ← exchange;
  if ok : bool then router_delete serverAddress else mret tt.

Definition loadConfig : M (option Config) := λ w, (config_file w, w).

(** Line 157: [lastKnownConfig = config]. *)
Definition cacheConfig (config : Config) : M unit := λ w,
  (tt, with_lastKnownConfig (Some config) w).

Definition getDockerRoutes : M JSMap.t := λ w,
  (dockerRoutesOf (DOCKER_HOST_IP w) (docker_containers w), w).

(** How a cycle ends: the log line it writes last. *)
Inductive Outcome :=
| SkippedConfig    (** "Synchronization skipped: Configuration is invalid or unreadable." *)
| SkippedFetch     (** "Synchronization skipped: Could not retrieve current routes from mc-router." *)
| NoChanges        (** "Synchronization complete. No changes detected." *)
| ChangesApplied.  (** "Synchronization complete. Changes were applied." *)

Definition skipped (o : Outcome) : bool :=
  match o with
  | SkippedConfig | SkippedFetch => true
  | NoChanges | ChangesApplied => false
  end.

(** Lines 188-204: the two loops over [desiredRoutes] and [currentMappings];
    the result is [changesMade]. *)
Definition applyChanges (desiredRoutes currentMappings : JSMap.t) : M bool :=
  changesMade ←
    for_of (λ (changesMade : bool) '(address, backend),
              if decide (JSMap.get address currentMappings ≠ Some backend)
              then addOrUpdateRoute address backend;; mret true
              else mret changesMade)
           false (JSMap.entries desiredRoutes);
  for_of (λ (changesMade : bool) '(address, _),
            if negb (JSMap.has address desiredRoutes)
            then deleteRoute address;; mret true
            else mret changesMade)
         changesMade (JSMap.entries currentMappings).

Definition syncRoutes : M Outcome :=
  config ← loadConfig;
  match config with
  | None => mret SkippedConfig
  | Some config =>
      cacheConfig config;;
      dockerRoutes ← getDockerRoutes;
      let desiredRoutes := buildDesiredRoutes config dockerRoutes in
      currentRoutes ← getMcRouterRoutes;
      match currentRoutes with
      | None => mret SkippedFetch
      | Some currentRoutes =>
          let currentMappings := JSMap.of_entries currentRoutes in
          changesMade ← applyChanges desiredRoutes currentMappings;
          mret (if changesMade : bool then ChangesApplied else NoChanges)
      end
  end.

(** The requests a computation sends when started in [w]. *)
Definition calls_of {A : Type} (m : M A) (w : World) : list Call :=
  drop (length (issued w)) (issued (m w).2).

(** ** Vocabulary of the statements *)

(** The backends posted for [name], in the order of the requests. *)
Definition posted (name : string) (calls : list Call) : list string :=
  omap (λ c, match c with
             | AddOrUpdateRoute address backend =>
                 if decide (address = name) then Some backend else None
             | DeleteRoute _ => None
             end) calls.

(** How many times the deletion of [name] is requested. *)
Definition deleted (name : string) (calls : list Call) : nat :=
  length (filter (λ c, c = DeleteRoute name) calls).

Definition is_add (c : Call) : Prop :=
  match c with AddOrUpdateRoute _ _ => True | DeleteRoute _ => False end.

Definition is_delete (c : Call) : Prop :=
  match c with AddOrUpdateRoute _ _ => False | DeleteRoute _ => True end.

Definition added_names (calls : list Call) : gset string :=
  list_to_set (omap (λ c, match c with
                          | AddOrUpdateRoute address _ => Some address
                          | DeleteRoute _ => None
                          end) calls).

Definition deleted_names (calls : list Call) : gset string :=
  list_to_set (omap (λ c, match c with
                          | AddOrUpdateRoute _ _ => None
                          | DeleteRoute address => Some address
                          end) calls).

(** The writes of a build step, in order: the arguments of each
    [desiredRoutes.set]. *)
Definition dockerWrites (config : Config) (dockerRoutes : JSMap.t)
  : list (string * string) :=
  '(slug, backend) ← JSMap.entries dockerRoutes;
  suffix ← default_domain_suffix config;
  [(slug +:+ "." +:+ suffix, backend)].

Definition manualWrites (config : Config) : list (string * string) :=
  '(slug, manualConfig) ← manual config;
  suffix ← manualSuffixes config manualConfig;
  [(fullAddress slug suffix, manualBackend manualConfig)].

(** The last value written for [k], if any. *)
Definition last_write (k : string) (writes : list (string * string))
  : option string :=
  JSMap.get k (reverse writes).

(** Modelled from the spec: what a request does to mc-router's table once
    it is accepted ([router_post], [router_delete]). *)
Definition effect (r : gmap string string) (c : Call) : gmap string string :=
  match c with
  | AddOrUpdateRoute address backend => <[address := backend]> r
  | DeleteRoute address => delete address r
  end.

(** The requests of lines 191-196 and of lines 199-204, as lists. *)
Definition additions (desiredRoutes currentMappings : JSMap.t) : list Call :=
  omap (λ '(address, backend),
          if decide (JSMap.get address currentMappings ≠ Some backend)
          then Some (AddOrUpdateRoute address backend) else None)
       desiredRoutes.

Definition deletions (desiredRoutes currentMappings : JSMap.t) : list Call :=
  omap (λ '(address, _),
          if negb (JSMap.has address desiredRoutes)
          then Some (DeleteRoute address) else None)
       currentMappings.

(** The suffix list as the specification words it: the override when it is
    present and not empty, the default list otherwise. *)
Definition specSuffixes (config : Config)
    (manualConfig : ManualServerConfig) : list string :=
  match override_suffix manualConfig with
  | Some (suffix :: suffixes) => suffix :: suffixes
  | Some [] | None => default_domain_suffix config
  end.

(** ** Running requests *)

(** No exchange with mc-router is going to fail. *)
Definition all_succeed (w : World) : Prop :=
  Forall (λ failed, failed = false) (outages w).

(** What the process reads besides the router is the same in [w] and [w']. *)
Definition same_inputs (w w' : World) : Prop :=
  config_file w' = config_file w
  ∧ docker_containers w' = docker_containers w
  ∧ env_DOCKER_HOST_IP w' = env_DOCKER_HOST_IP w.

(** [w'] is [w] after the requests [calls] were sent, one after the other. *)
Definition steps (calls : list Call) (w w' : World) : Prop :=
  issued w' = issued w ++ calls
  ∧ (all_succeed w →
     all_succeed w' ∧ router w' = foldl effect (router w) calls)
  ∧ (calls = [] → w' = w)
  ∧ same_inputs w w'.

(** ** Sample inputs *)

(** A sample world: two labelled containers, one manual entry and a router
    that still holds a stale route. *)
Definition sample_config : Config :=
  {| default_domain_suffix := ["mc.test"; "lan"];
     manual := [("foo", {| host := "10.0.0.5"; port := 9000;
                            override_suffix := Some ["example.com"; "lan"] |});
                ("a", {| host := "10.0.0.7"; port := 7000;
                          override_suffix := None |})] |}.

Definition sample_containers : list ContainerInfo :=
  [ {| Labels := {[ "router.slug" := "a, b" ]};
       Ports := Some [ {| PublicPort := Some 25565%Z |} ] |};
    {| Labels := {[ "router.slug" := "a" ]};
       Ports := Some [ {| PublicPort := Some 25566%Z |} ] |} ].

Definition sample_world : World :=
  {| config_file := Some sample_config;
     docker_containers := Some sample_containers;
     env_DOCKER_HOST_IP := Some "192.168.1.10";
     router := {[ "old.example.com" := "1.2.3.4:1000";
                  "a.lan" := "192.168.1.10:25566";
                  "foo" := "10.0.0.5:8000" ]};
     outages := [];
     issued := [];
     lastKnownConfig := None |}.

Definition sample_desired : JSMap.t :=
  [("a.lan", "10.0.0.1:1"); ("b.lan", "10.0.0.2:2"); ("c.lan", "10.0.0.3:3")].

Definition sample_observed : JSMap.t :=
  [("b.lan", "10.0.0.2:2"); ("c.lan", "10.0.0.9:9"); ("old.lan", "10.0.0.4:4")].

(** A manual entry whose [override_suffix] is present and empty. *)
Definition empty_override_entry : ManualServerConfig :=
  {| host := "10.0.0.8"; port := 8000; override_suffix := Some [] |}.

Definition empty_override_config : Config :=
  {| default_domain_suffix := ["lan"];
     manual := [("bar", empty_override_entry)] |}.

(** Two records that carry the slug [a] and one that carries [a.b], under
    the suffixes [b.c] and [c]: [a.b.c] is a route name of both slugs. *)
Definition colliding_containers : list ContainerInfo :=
  [ {| Labels := {[ "router.slug" := "a" ]};
       Ports := Some [ {| PublicPort := Some 1%Z |} ] |};
    {| Labels := {[ "router.slug" := "a" ]};
       Ports := Some [ {| PublicPort := Some 3%Z |} ] |};
    {| Labels := {[ "router.slug" := "a.b" ]};
       Ports := Some [ {| PublicPort := Some 2%Z |} ] |} ].

Definition colliding_config : Config :=
  {| default_domain_suffix := ["b.c"; "c"]; manual := [] |}.

(** Two records that carry the slug [a]; the one enumerated last has no
    published port. *)
Definition unpublished_last_containers : list ContainerInfo :=
  [ {| Labels := {[ "router.slug" := "a" ]};
       Ports := Some [ {| PublicPort := Some 1%Z |} ] |};
    {| Labels := {[ "router.slug" := "a" ]};
       Ports := Some [] |} ].

(** The scenarios of the specification, section 8. *)
Definition scenario_manual_only : World :=
  {| config_file :=
       Some {| default_domain_suffix := ["example.com"];
               manual := [("foo", {| host := "10.0.0.5"; port := 9000;
                                      override_suffix := None |})] |};
     docker_containers := Some [];
     env_DOCKER_HOST_IP := None;
     router := ∅;
     outages := [];
     issued := [];
     lastKnownConfig := None |}.

Definition scenario_two_slugs : World :=
  {| config_file :=
       Some {| default_domain_suffix := ["mc.test"]; manual := [] |};
     docker_containers :=
       Some [ {| Labels := {[ "router.slug" := "a,b" ]};
                 Ports := Some [ {| PublicPort := Some 25565%Z |} ] |} ];
     env_DOCKER_HOST_IP := Some "192.168.1.10";
     router := ∅;
     outages := [];
     issued := [];
     lastKnownConfig := None |}.

Definition scenario_stale_route : World :=
  {| config_file :=
       Some {| default_domain_suffix := ["example.com"]; manual := [] |};
     docker_containers := Some [];
     env_DOCKER_HOST_IP := None;
     router := {[ "old.example.com" := "1.2.3.4:1000" ]};
     outages := [];
     issued := [];
     lastKnownConfig := None |}.

(** ** Further vocabulary *)

(** Line 126: the slugs a label value stands for. *)
Definition labelSlugs (slugsLabel : string) : list string :=
  filter (λ s, JSString.truthy s = true)
         (JSString.trim <$> JSString.split "," slugsLabel).

(** A slug as line 126 leaves it: not empty, without a comma, and with no
    white space at either end. *)
Definition clean_slug (s : string) : Prop :=
  s ≠ ""
  ∧ (","%char ∉ list_ascii_of_string s)
  ∧ Forall (λ ws, ¬ ws `prefix_of` list_ascii_of_string s
                  ∧ ¬ ws `suffix_of` list_ascii_of_string s)
           JSString.white_space.

(** A label value written with a no-break space, a byte order mark and
    empty pieces. *)
Definition untidy_label : string :=
  " a" +:+ string_of_list_ascii (JSString.utf8 [194; 160]%N) +:+ ",, "
  +:+ string_of_list_ascii (JSString.utf8 [239; 187; 191]%N) +:+ "b ,".

(** The published port lines 127-129 accept: the public port of the first
    entry of [Ports], when there is one and it is not 0. *)
Definition firstPublicPort (containerInfo : ContainerInfo) : option Z :=
  match (Ports containerInfo ≫= head) ≫= PublicPort with
  | Some publicPort => if decide (publicPort = 0%Z) then None else Some publicPort
  | None => None
  end.

(** Lines 125 and 129: the container has a label that is not empty and a
    first port that is published. *)
Definition contributes (containerInfo : ContainerInfo) : bool :=
  match Labels containerInfo !! "router.slug" with
  | Some slugsLabel =>
      JSString.truthy slugsLabel
      && bool_decide (is_Some (firstPublicPort containerInfo))
  | None => false
  end.

(** A configuration without default suffixes. *)
Definition no_suffix_config : Config :=
  {| default_domain_suffix := [];
     manual := [("foo", {| host := "10.0.0.5"; port := 9000;
                            override_suffix := Some ["example.com"; "lan"] |});
                ("a", {| host := "10.0.0.7"; port := 7000;
                          override_suffix := None |})] |}.

(** A container whose first port is not published while its second one is,
    and a container without a label. *)
Definition idle_containers : list ContainerInfo :=
  [ {| Labels := {[ "router.slug" := "c" ]};
       Ports := Some [ {| PublicPort := None |};
                       {| PublicPort := Some 25567%Z |} ] |};
    {| Labels := ∅;
       Ports := Some [ {| PublicPort := Some 25568%Z |} ] |} ].

(** The name a request is about. *)
Definition request_name (c : Call) : string :=
  match c with
  | AddOrUpdateRoute serverAddress _ => serverAddress
  | DeleteRoute serverAddress => serverAddress
  end.

(** A world in which the fetch succeeds and every request after it fails. *)
Definition failing_world : World :=
  with_outages [false; true; true; true; true; true; true; true; true]
               sample_world.

(** In [r] each name holds what it held in [r0] or what [desiredRoutes]
    gives it. *)
Definition between (desiredRoutes : JSMap.t) (r0 r : gmap string string) : Prop :=
  ∀ name, r !! name = r0 !! name ∨ r !! name = JSMap.get name desiredRoutes.

(** ** The entry point *)

(** What the runtime calls back once [main] has set the service up. *)
Inductive Trigger :=
| WatchEvent (event : string)   (** the listener given to [watch] *)
| TimerTick.                    (** the function given to [setInterval] *)

(** Lines 221-226: the listener of [watch]; [None] when it runs no cycle. *)
Definition onWatchEvent (event : string) : M (option Outcome) :=
  if decide (event = "change")
  then outcome ← syncRoutes; mret (Some outcome)
  else mret None.

(** Lines 229-232: the function run every [POLLING_INTERVAL_MS]. *)
Definition onTimerTick : M (option Outcome) :=
  outcome ← syncRoutes; mret (Some outcome).

Definition onTrigger (trigger : Trigger) : M (option Outcome) :=
  match trigger with
  | WatchEvent event => onWatchEvent event
  | TimerTick => onTimerTick
  end.

(** [main] followed by the callbacks for [triggers], each one called once
    the cycle before it is over (cycles that overlap are not described).
    The result is the outcome of the startup cycle and what each callback
    did. *)
Definition main (triggers : list Trigger) : M (Outcome * list (option Outcome)) :=
  startup ← syncRoutes;
  later ← for_of (λ outcomes trigger,
                    outcome ← onTrigger trigger; mret (outcomes ++ [outcome]))
                 [] triggers;
  mret (startup, later).

(** What a callback does when there is nothing to reconcile. *)
Definition quiet_outcome (trigger : Trigger) : option Outcome :=
  match trigger with
  | WatchEvent event => if decide (event = "change") then Some NoChanges else None
  | TimerTick => Some NoChanges
  end.

(** The router holds the mapping the configuration and the containers of
    [w] ask for, and nothing is about to fail. *)
Definition settled (config : Config) (w : World) : Prop :=
  all_succeed w
  ∧ config_file w = Some config
  ∧ (∀ name,
       router w !! name
       = JSMap.get name (buildDesiredRoutes config (getDockerRoutes w).1)).


(** ** Facts about [JSMap] *)

Module JSMapFacts.
Import JSMap.

Lemma get_set k k' v m :
  get k (set k' v m) = if decide (k = k') then Some v else get k m.
Proof.
  induction m as [|[k0 v0] m IH]; simpl.
  - by destruct (decide (k = k')).
  - destruct (decide (k' = k0)) as [->|]; simpl;
      destruct (decide (k = k0)) as [->|]; simpl; try done;
      by rewrite ?IH, ?decide_False.
Qed.

Lemma get_None k m : get k m = None ↔ k ∉ m.*1.
Proof.
  induction m as [|[k0 v0] m IH]; simpl.
  - split; [intros _; apply not_elem_of_nil | done].
  - rewrite not_elem_of_cons. destruct (decide (k = k0)) as [->|Hne].
    + split; [done|]. by intros [? _].
    + rewrite IH. tauto.
Qed.

Lemma get_Some_elem k v m : get k m = Some v → (k, v) ∈ m.
Proof.
  induction m as [|[k0 v0] m IH]; simpl; [done|].
  case_decide; subst.
  - intros [= ->]. left.
  - intros ?. right. auto.
Qed.

Lemma wf_get k v m : wf m → (k, v) ∈ m → get k m = Some v.
Proof.
  unfold wf. induction m as [|[k0 v0] m IH]; simpl.
  - by intros _ ?%elem_of_nil.
  - intros [Hk Hm]%NoDup_cons [[= -> ->]| Hin]%elem_of_cons.
    + by rewrite decide_True.
    + case_decide; subst; [|by auto].
      destruct Hk. apply list_elem_of_fmap. by exists (k0, v).
Qed.

Lemma has_true k m : has k m = true ↔ k ∈ m.*1.
Proof.
  unfold has. destruct (get k m) eqn:E.
  - split; [intros _|done]. apply get_Some_elem in E.
    apply list_elem_of_fmap. by eexists (_, _).
  - apply get_None in E. naive_solver.
Qed.

Lemma has_false k m : has k m = false ↔ k ∉ m.*1.
Proof. rewrite <- has_true. by destruct (has k m). Qed.

Lemma keys_set k v m :
  (set k v m).*1 = if has k m then m.*1 else m.*1 ++ [k].
Proof.
  unfold has. induction m as [|[k0 v0] m IH]; csimpl; [done|].
  case_decide; subst; csimpl; [done|].
  rewrite IH. by destruct (get k m).
Qed.

Lemma wf_set k v m : wf m → wf (set k v m).
Proof.
  unfold wf. rewrite keys_set. destruct (has k m) eqn:E; [done|].
  intros Hm. apply NoDup_app. split_and!; [done| |apply NoDup_singleton].
  intros x Hx ->%list_elem_of_singleton. by apply has_false in E.
Qed.

Lemma wf_empty : wf empty.
Proof. apply NoDup_nil_2. Qed.

Lemma wf_set_all (writes : list (string * string)) m :
  wf m → wf (foldl (λ m '(k, v), set k v m) m writes).
Proof.
  revert m. induction writes as [|[k v] ws IH]; simpl; [done|].
  intros m Hm. by apply IH, wf_set.
Qed.

Lemma wf_of_entries l : wf (of_entries l).
Proof. apply wf_set_all, wf_empty. Qed.

Lemma get_set_all (writes : list (string * string)) k m :
  get k (foldl (λ m '(k, v), set k v m) m writes)
  = match last_write k writes with Some v => Some v | None => get k m end.
Proof.
  unfold last_write. revert m.
  induction writes as [|[k0 v0] ws IH] using rev_ind; intros m; [done|].
  rewrite foldl_app, reverse_app. simpl.
  rewrite get_set. by case_decide.
Qed.

Lemma set_fresh k v m : k ∉ m.*1 → set k v m = m ++ [(k, v)].
Proof.
  induction m as [|[k1 v1] m IH]; simpl; [done|].
  intros [? ?]%not_elem_of_cons.
  rewrite decide_False by done. by rewrite IH.
Qed.

Lemma of_entries_id m : wf m → of_entries m = m.
Proof.
  unfold of_entries, empty, wf. intros Hm.
  assert (∀ pre, NoDup (pre ++ m).*1 →
            foldl (λ m '(k, v), set k v m) pre m = pre ++ m) as H.
  { clear. induction m as [|[k v] m IH]; intros pre Hnd; simpl.
    - by rewrite app_nil_r.
    - rewrite set_fresh.
      + rewrite IH; by rewrite <- app_assoc.
      + rewrite fmap_app in Hnd. apply NoDup_app in Hnd as (_ & Hd & _).
        intros Hin. apply (Hd k Hin). simpl. left. }
  by apply (H []).
Qed.

End JSMapFacts.

(** ** Running the effectful functions *)

Module RunFacts.

Lemma steps_nil w : steps [] w w.
Proof. unfold steps, same_inputs. by rewrite app_nil_r. Qed.

Lemma steps_app c1 c2 w w1 w2 :
  steps c1 w w1 → steps c2 w1 w2 → steps (c1 ++ c2) w w2.
Proof.
  intros (Hi1 & Ho1 & Hn1 & Hs1) (Hi2 & Ho2 & Hn2 & Hs2). split_and!.
  - by rewrite Hi2, Hi1, app_assoc.
  - intros Ho. destruct (Ho1 Ho) as [Ho' Hr1]. destruct (Ho2 Ho') as [? Hr2].
    split; [done|]. by rewrite Hr2, Hr1, foldl_app.
  - intros [-> ->]%app_eq_nil. by rewrite Hn2, Hn1.
  - destruct Hs1 as (? & ? & ?), Hs2 as (? & ? & ?).
    unfold same_inputs. split_and!; congruence.
Qed.

Lemma addOrUpdateRoute_steps address backend w :
  steps [AddOrUpdateRoute address backend] w
        (addOrUpdateRoute address backend w).2.
Proof.
  unfold steps, same_inputs, all_succeed, addOrUpdateRoute, send, exchange,
    router_post, mbind, M_bind, mret, M_ret.
  simpl.
  split_and!; [by destruct (outages w) as [|[] ?]| |done
              |by destruct (outages w) as [|[] ?]..].
  intros Ho. destruct (outages w) as [|failed rest] eqn:E; simpl; rewrite ?E.
  - done.
  - apply Forall_cons in Ho as [-> Ho]. by split.
Qed.

Lemma deleteRoute_steps address w :
  steps [DeleteRoute address] w (deleteRoute address w).2.
Proof.
  unfold steps, same_inputs, all_succeed, deleteRoute, send, exchange,
    router_delete, mbind, M_bind, mret, M_ret.
  simpl.
  split_and!; [by destruct (outages w) as [|[] ?]| |done
              |by destruct (outages w) as [|[] ?]..].
  intros Ho. destruct (outages w) as [|failed rest] eqn:E; simpl; rewrite ?E.
  - done.
  - apply Forall_cons in Ho as [-> Ho]. by split.
Qed.

Lemma run_bind {A B} (m : M A) (f : A → M B) w :
  (m ≫= f) w = f (m w).1 (m w).2.
Proof. unfold mbind, M_bind. by destruct (m w). Qed.

Lemma run_ret {A} (x : A) w : (mret x : M A) w = (x, w).
Proof. done. Qed.

Lemma add_loop_steps currentMappings l changesMade w :
  let r :=
    for_of (λ (changesMade : bool) '(address, backend),
              if decide (JSMap.get address currentMappings ≠ Some backend)
              then addOrUpdateRoute address backend;; mret true
              else mret changesMade)
           changesMade l w in
  steps (additions l currentMappings) w r.2
  ∧ r.1 = changesMade || bool_decide (additions l currentMappings ≠ []).
Proof.
  revert changesMade w. induction l as [|[address backend] l IH]; intros b w.
  - simpl. split; [apply steps_nil|]. by rewrite orb_false_r.
  - cbn [for_of additions omap list_omap]. rewrite run_bind.
    case_decide as Hd.
    + rewrite run_bind, run_ret. cbn [fst snd].
      pose proof (addOrUpdateRoute_steps address backend w) as Hs.
      destruct (IH true (addOrUpdateRoute address backend w).2) as [Hs' Hb].
      split.
      * by apply (steps_app [_] _ _ _ _ Hs).
      * rewrite Hb. simpl. by rewrite orb_true_r.
    + rewrite run_ret. cbn [fst snd]. apply IH.
Qed.

Lemma delete_loop_steps desiredRoutes l changesMade w :
  let r :=
    for_of (λ (changesMade : bool) '(address, _),
              if negb (JSMap.has address desiredRoutes)
              then deleteRoute address;; mret true
              else mret changesMade)
           changesMade l w in
  steps (deletions desiredRoutes l) w r.2
  ∧ r.1 = changesMade || bool_decide (deletions desiredRoutes l ≠ []).
Proof.
  revert changesMade w. induction l as [|[address backend] l IH]; intros b w.
  - simpl. split; [apply steps_nil|]. by rewrite orb_false_r.
  - cbn [for_of deletions omap list_omap]. rewrite run_bind.
    destruct (negb (JSMap.has address desiredRoutes)).
    + rewrite run_bind, run_ret. cbn [fst snd].
      pose proof (deleteRoute_steps address w) as Hs.
      destruct (IH true (deleteRoute address w).2) as [Hs' Hb].
      split.
      * by apply (steps_app [_] _ _ _ _ Hs).
      * rewrite Hb. simpl. by rewrite orb_true_r.
    + rewrite run_ret. cbn [fst snd]. apply IH.
Qed.

Lemma applyChanges_steps desiredRoutes currentMappings w :
  let calls := additions desiredRoutes currentMappings
               ++ deletions desiredRoutes currentMappings in
  steps calls w (applyChanges desiredRoutes currentMappings w).2
  ∧ (applyChanges desiredRoutes currentMappings w).1 = bool_decide (calls ≠ []).
Proof.
  unfold applyChanges, JSMap.entries. rewrite run_bind.
  pose proof (add_loop_steps currentMappings desiredRoutes false w) as [Ha Hb].
  cbv zeta in Ha, Hb.
  set (r := for_of _ false desiredRoutes w) in *.
  pose proof (delete_loop_steps desiredRoutes currentMappings r.1 r.2) as [Hd Hb'].
  split; [by eapply steps_app|].
  cbv zeta in Hb'. rewrite Hb', Hb.
  by destruct (additions desiredRoutes currentMappings),
              (deletions desiredRoutes currentMappings).
Qed.

Lemma steps_calls_of {A} (m : M A) calls w :
  steps calls w (m w).2 → calls_of m w = calls.
Proof.
  intros (Hi & _). unfold calls_of. rewrite Hi. by rewrite drop_app_length.
Qed.

End RunFacts.

(** ** The requests of one diff *)

Module DiffFacts.
Import JSMap JSMapFacts.

Lemma posted_app name c1 c2 :
  posted name (c1 ++ c2) = posted name c1 ++ posted name c2.
Proof. apply omap_app. Qed.

Lemma deleted_app name c1 c2 :
  deleted name (c1 ++ c2) = deleted name c1 + deleted name c2.
Proof. unfold deleted. by rewrite filter_app, length_app. Qed.

Lemma additions_add desiredRoutes currentMappings :
  Forall is_add (additions desiredRoutes currentMappings).
Proof.
  induction desiredRoutes as [|[k v] D IH]; [constructor|].
  cbn [additions omap list_omap]. case_decide; [constructor|]; done.
Qed.

Lemma deletions_delete desiredRoutes currentMappings :
  Forall is_delete (deletions desiredRoutes currentMappings).
Proof.
  induction currentMappings as [|[k v] O IH]; [constructor|].
  cbn [deletions omap list_omap].
  destruct (negb (has k desiredRoutes)); [constructor|]; done.
Qed.

Lemma posted_deletes name calls : Forall is_delete calls → posted name calls = [].
Proof.
  induction 1 as [|[] calls Hc _ IH]; [done| |]; simpl in *; done.
Qed.

Lemma deleted_adds name calls : Forall is_add calls → deleted name calls = 0.
Proof.
  unfold deleted. induction 1 as [|[] calls Hc _ IH]; [done| |]; simpl in *; [|done].
  by rewrite filter_cons_False.
Qed.

Lemma elem_of_additions address backend desiredRoutes currentMappings :
  AddOrUpdateRoute address backend ∈ additions desiredRoutes currentMappings
  ↔ (address, backend) ∈ desiredRoutes
    ∧ get address currentMappings ≠ Some backend.
Proof.
  unfold additions. rewrite list_elem_of_omap. split.
  - intros ([k v] & Hin & Heq). case_decide; [|done].
    by injection Heq as -> ->.
  - intros [Hin Hne]. exists (address, backend). by rewrite decide_True.
Qed.

Lemma elem_of_deletions address desiredRoutes currentMappings :
  DeleteRoute address ∈ deletions desiredRoutes currentMappings
  ↔ address ∈ currentMappings.*1 ∧ has address desiredRoutes = false.
Proof.
  unfold deletions. rewrite list_elem_of_omap, list_elem_of_fmap. split.
  - intros ([k v] & Hin & Heq).
    destruct (has k desiredRoutes) eqn:E; [done|]. injection Heq as ->.
    split; [by exists (address, v)|done].
  - intros [([k v] & -> & Hin) Hh]. exists (k, v). simpl in Hh.
    by rewrite Hh.
Qed.

Lemma posted_cons name c calls :
  posted name (c :: calls)
  = match c with
    | AddOrUpdateRoute address backend =>
        if decide (address = name) then backend :: posted name calls
        else posted name calls
    | DeleteRoute _ => posted name calls
    end.
Proof. destruct c; [|done]. unfold posted. simpl. by case_decide. Qed.

Lemma deleted_cons name c calls :
  deleted name (c :: calls)
  = if decide (c = DeleteRoute name) then S (deleted name calls)
    else deleted name calls.
Proof. unfold deleted. rewrite filter_cons. by case_decide. Qed.

Lemma posted_additions name desiredRoutes currentMappings :
  wf desiredRoutes →
  posted name (additions desiredRoutes currentMappings)
  = match get name desiredRoutes with
    | Some backend =>
        if decide (get name currentMappings = Some backend) then [] else [backend]
    | None => []
    end.
Proof.
  unfold wf. induction desiredRoutes as [|[k v] D IH]; [done|].
  rewrite fmap_cons. intros [Hk HD]%NoDup_cons. specialize (IH HD).
  cbn [additions omap list_omap get]. fold (additions D currentMappings).
  cbn [fst] in Hk.
  destruct (decide (name = k)) as [->|Hne].
  - apply get_None in Hk. rewrite Hk in IH.
    destruct (decide (get k currentMappings ≠ Some v)) as [Hd|Hd].
    + rewrite posted_cons, decide_True, IH by done.
      by rewrite decide_False.
    + rewrite IH. apply dec_stable in Hd. by rewrite decide_True.
  - rewrite <- IH. case_decide; [|done].
    rewrite posted_cons. by rewrite decide_False.
Qed.

Lemma has_cons name k v m :
  has name ((k, v) :: m) = if decide (name = k) then true else has name m.
Proof. unfold has. simpl. by case_decide. Qed.

Lemma deleted_deletions name desiredRoutes currentMappings :
  wf currentMappings →
  deleted name (deletions desiredRoutes currentMappings)
  = if has name currentMappings && negb (has name desiredRoutes) then 1 else 0.
Proof.
  unfold wf. induction currentMappings as [|[k v] O IH]; [done|].
  rewrite fmap_cons. intros [Hk HO]%NoDup_cons. specialize (IH HO).
  cbn [deletions omap list_omap]. fold (deletions desiredRoutes O).
  cbn [fst] in Hk. rewrite has_cons.
  destruct (decide (name = k)) as [->|Hne].
  - apply has_false in Hk. rewrite Hk in IH. cbn [andb] in IH.
    destruct (has k desiredRoutes); cbn [negb andb]; [done|].
    by rewrite deleted_cons, decide_True, IH.
  - rewrite <- IH.
    destruct (negb (has k desiredRoutes)); [|done].
    rewrite deleted_cons, decide_False; [done|]. congruence.
Qed.

Lemma additions_nil desiredRoutes currentMappings :
  wf desiredRoutes →
  (∀ name, get name desiredRoutes = get name currentMappings) →
  additions desiredRoutes currentMappings = [].
Proof.
  intros HD Heq. apply elem_of_nil_inv. intros [address backend|address] Hin.
  - apply elem_of_additions in Hin as [Hin Hne]. destruct Hne.
    rewrite <- Heq. by apply wf_get.
  - pose proof (additions_add desiredRoutes currentMappings) as Ha.
    rewrite Forall_forall in Ha. by apply Ha in Hin.
Qed.

Lemma deletions_nil desiredRoutes currentMappings :
  (∀ name, is_Some (get name currentMappings) → is_Some (get name desiredRoutes)) →
  deletions desiredRoutes currentMappings = [].
Proof.
  intros Hsub. apply elem_of_nil_inv. intros [address backend|address] Hin.
  - pose proof (deletions_delete desiredRoutes currentMappings) as Ha.
    rewrite Forall_forall in Ha. by apply Ha in Hin.
  - apply elem_of_deletions in Hin as [Hin Hh].
    apply has_true in Hin. unfold has in Hin, Hh.
    destruct (get address currentMappings) eqn:E; [|done].
    destruct (Hsub address) as [? Hs]; [by rewrite E|]. by rewrite Hs in Hh.
Qed.

End DiffFacts.

(** ** One cycle, step by step *)

Module CycleFacts.
Import JSMap JSMapFacts RunFacts DiffFacts.

Lemma getMcRouterRoutes_run w :
  getMcRouterRoutes w =
  match outages w with
  | true :: rest => (None, with_outages rest w)
  | false :: rest => (Some (map_to_list (router w)), with_outages rest w)
  | [] => (Some (map_to_list (router w)), w)
  end.
Proof.
  unfold getMcRouterRoutes. rewrite run_bind. unfold exchange.
  by destruct (outages w) as [|[] ?].
Qed.

Lemma getMcRouterRoutes_quiet w :
  issued (getMcRouterRoutes w).2 = issued w
  ∧ router (getMcRouterRoutes w).2 = router w
  ∧ (all_succeed w →
     all_succeed (getMcRouterRoutes w).2
     ∧ (getMcRouterRoutes w).1 = Some (map_to_list (router w))).
Proof.
  rewrite getMcRouterRoutes_run. unfold all_succeed.
  destruct (outages w) as [|[] ?] eqn:E; simpl; rewrite ?E;
    split_and!; try done.
  - by intros [? ?]%Forall_cons.
  - by intros [? ?]%Forall_cons.
Qed.

Lemma getMcRouterRoutes_same_inputs w :
  same_inputs w (getMcRouterRoutes w).2.
Proof.
  rewrite getMcRouterRoutes_run. unfold same_inputs.
  by destruct (outages w) as [|[] ?].
Qed.

Lemma getMcRouterRoutes_lastKnownConfig c w :
  (getMcRouterRoutes (with_lastKnownConfig c w)).1 = (getMcRouterRoutes w).1.
Proof.
  rewrite !getMcRouterRoutes_run. simpl. by destruct (outages w) as [|[] ?].
Qed.

Lemma syncRoutes_run w :
  syncRoutes w =
  match config_file w with
  | None => (SkippedConfig, w)
  | Some config =>
      let w1 := with_lastKnownConfig (Some config) w in
      let desiredRoutes := buildDesiredRoutes config (getDockerRoutes w).1 in
      match (getMcRouterRoutes w1).1 with
      | None => (SkippedFetch, (getMcRouterRoutes w1).2)
      | Some currentRoutes =>
          let r := applyChanges desiredRoutes (of_entries currentRoutes)
                                (getMcRouterRoutes w1).2 in
          (if r.1 then ChangesApplied else NoChanges, r.2)
      end
  end.
Proof.
  unfold syncRoutes. rewrite run_bind. unfold loadConfig at 1 2. cbn [fst snd].
  destruct (config_file w) as [config|]; [|done].
  rewrite !run_bind. unfold cacheConfig, getDockerRoutes. cbn [fst snd].
  destruct (getMcRouterRoutes (with_lastKnownConfig (Some config) w))
    as [[currentRoutes|] w2]; cbn [fst snd]; [|done].
  by rewrite run_bind.
Qed.

(** The requests of a cycle are those of the diff, when it gets that far. *)
Lemma syncRoutes_calls w :
  calls_of syncRoutes w =
  match config_file w, (getMcRouterRoutes w).1 with
  | Some config, Some currentRoutes =>
      let desiredRoutes := buildDesiredRoutes config (getDockerRoutes w).1 in
      let currentMappings := of_entries currentRoutes in
      additions desiredRoutes currentMappings
      ++ deletions desiredRoutes currentMappings
  | _, _ => []
  end.
Proof.
  unfold calls_of at 1. rewrite syncRoutes_run.
  destruct (config_file w) as [config|]; [|by rewrite drop_all].
  cbv zeta. rewrite getMcRouterRoutes_lastKnownConfig.
  set (w1 := with_lastKnownConfig (Some config) w).
  destruct (getMcRouterRoutes_quiet w1) as (Hi & _).
  destruct (getMcRouterRoutes w).1 as [currentRoutes|]; cbn [snd].
  - match goal with |- context [applyChanges ?D ?O ?w2] =>
      destruct (applyChanges_steps D O w2) as [(Hs & _) _] end.
    rewrite Hs, Hi. simpl. by rewrite drop_app_length.
  - rewrite Hi. simpl. by rewrite drop_all.
Qed.

Lemma calls_in_order desiredRoutes currentMappings i j address address' backend :
  let calls := additions desiredRoutes currentMappings
               ++ deletions desiredRoutes currentMappings in
  calls !! i = Some (DeleteRoute address) →
  calls !! j = Some (AddOrUpdateRoute address' backend) →
  j < i.
Proof.
  intros calls Hi Hj. subst calls.
  pose proof (additions_add desiredRoutes currentMappings) as Ha.
  pose proof (deletions_delete desiredRoutes currentMappings) as Hd.
  rewrite Forall_lookup in Ha, Hd.
  destruct (decide (i < length (additions desiredRoutes currentMappings))) as [Hlt|Hge].
  - rewrite lookup_app_l in Hi by done. by apply Ha in Hi.
  - destruct (decide (j < length (additions desiredRoutes currentMappings)));
      [lia|].
    rewrite lookup_app_r in Hj by lia. by apply Hd in Hj.
Qed.

End CycleFacts.

(** ** The router after a diff *)

Module RouterFacts.
Import JSMap JSMapFacts RunFacts DiffFacts CycleFacts.

Lemma get_list_to_map name (m : JSMap.t) :
  get name m = (list_to_map m : gmap string string) !! name.
Proof.
  induction m as [|[k v] m IH]; simpl.
  - by rewrite lookup_empty.
  - case_decide; subst.
    + by rewrite lookup_insert_eq.
    + by rewrite lookup_insert_ne.
Qed.

Lemma get_map_to_list name (r : gmap string string) :
  get name (of_entries (map_to_list r)) = r !! name.
Proof.
  rewrite of_entries_id by apply NoDup_fst_map_to_list.
  by rewrite get_list_to_map, list_to_map_to_list.
Qed.

Lemma get_app name m1 m2 :
  get name (m1 ++ m2)
  = match get name m1 with Some v => Some v | None => get name m2 end.
Proof.
  induction m1 as [|[k v] m1 IH]; simpl; [done|]. by case_decide.
Qed.

Lemma additions_app m1 m2 currentMappings :
  additions (m1 ++ m2) currentMappings
  = additions m1 currentMappings ++ additions m2 currentMappings.
Proof. apply omap_app. Qed.

Lemma router_after_additions desiredRoutes currentMappings r name :
  wf desiredRoutes →
  (∀ name, get name currentMappings = r !! name) →
  foldl effect r (additions desiredRoutes currentMappings) !! name
  = match get name desiredRoutes with
    | Some backend => Some backend
    | None => r !! name
    end.
Proof.
  intros HD Hr. revert HD.
  induction desiredRoutes as [|[k v] D IH] using rev_ind; intros HD; [done|].
  unfold wf in HD. rewrite fmap_app in HD.
  apply NoDup_app in HD as (HD & Hk & _).
  assert (get k D = None) as HkD.
  { apply get_None. intros Hin. apply (Hk _ Hin). simpl. left. }
  specialize (IH HD).
  rewrite additions_app, foldl_app, get_app. cbn [additions omap list_omap get].
  destruct (decide (name = k)) as [->|Hne].
  - rewrite HkD in IH |- *. rewrite ?decide_True by done.
    case_decide as Hd; cbn [foldl effect].
    + by rewrite lookup_insert_eq.
    + by rewrite IH, <- Hr.
  - rewrite ?(decide_False _ _ Hne).
    case_decide; cbn [foldl effect].
    + rewrite lookup_insert_ne by done. rewrite IH. by destruct (get name D).
    + rewrite IH. by destruct (get name D).
Qed.

Lemma router_after_deletions desiredRoutes currentMappings r name :
  foldl effect r (deletions desiredRoutes currentMappings) !! name
  = if has name currentMappings && negb (has name desiredRoutes)
    then None else r !! name.
Proof.
  revert r. induction currentMappings as [|[k v] O IH]; intros r; [done|].
  cbn [deletions omap list_omap]. fold (deletions desiredRoutes O).
  rewrite has_cons.
  destruct (has k desiredRoutes) eqn:Hk; cbn [negb foldl effect]; rewrite IH.
  - destruct (decide (name = k)) as [->|Hne]; [|done].
    rewrite Hk. cbn [negb]. by rewrite !andb_false_r.
  - destruct (decide (name = k)) as [->|Hne].
    + rewrite Hk, lookup_delete_eq. cbn [negb andb]. by destruct (has k O).
    + by rewrite lookup_delete_ne.
Qed.

(** Once every request of the diff is accepted, the router holds the desired
    mapping. *)
Lemma router_after_diff desiredRoutes currentMappings r name :
  wf desiredRoutes →
  (∀ name, get name currentMappings = r !! name) →
  foldl effect r (additions desiredRoutes currentMappings
                  ++ deletions desiredRoutes currentMappings) !! name
  = get name desiredRoutes.
Proof.
  intros HD Hr. rewrite foldl_app, router_after_deletions.
  rewrite router_after_additions by done.
  unfold has. destruct (get name desiredRoutes) as [b|] eqn:E.
  - by rewrite andb_false_r.
  - rewrite andb_true_r. rewrite <- Hr. by destruct (get name currentMappings).
Qed.

(** Applying a diff taken against the router's own table, with every
    request accepted, leaves the router holding the desired mapping. *)
Lemma applyChanges_converges desiredRoutes currentMappings w :
  wf desiredRoutes →
  (∀ name, get name currentMappings = router w !! name) →
  all_succeed w →
  let w1 := (applyChanges desiredRoutes currentMappings w).2 in
  all_succeed w1
  ∧ same_inputs w w1
  ∧ (∀ name, router w1 !! name = get name desiredRoutes).
Proof.
  intros HD HO Hok w1.
  destruct (applyChanges_steps desiredRoutes currentMappings w)
    as [(_ & Hrun & _ & Hsame) _].
  destruct (Hrun Hok) as [Hok1 Hr]. fold w1 in Hr, Hok1, Hsame.
  split_and!; [done..|].
  intros name. rewrite Hr. by apply router_after_diff.
Qed.

(** A diff against an observed mapping that already agrees with the desired
    one does nothing at all. *)
Lemma applyChanges_silent desiredRoutes currentMappings w :
  wf desiredRoutes →
  (∀ name, get name currentMappings = get name desiredRoutes) →
  applyChanges desiredRoutes currentMappings w = (false, w)
  ∧ calls_of (applyChanges desiredRoutes currentMappings) w = [].
Proof.
  intros HD Heq.
  assert (additions desiredRoutes currentMappings
          ++ deletions desiredRoutes currentMappings = []) as Hnil.
  { rewrite additions_nil, deletions_nil; [done| |done|].
    - intros name. by rewrite Heq.
    - intros name. by rewrite Heq. }
  destruct (applyChanges_steps desiredRoutes currentMappings w) as [Hs Hb].
  cbv zeta in Hs, Hb. rewrite Hnil in Hs, Hb.
  split; [|by apply steps_calls_of].
  destruct Hs as (_ & _ & Hw & _).
  destruct (applyChanges desiredRoutes currentMappings w) as [b w2].
  simpl in *. by rewrite Hb, Hw.
Qed.

End RouterFacts.

(** ** Building the desired mapping *)

Module BuildFacts.
Import JSMap JSMapFacts RouterFacts.

Lemma foldl_bind {A B S} (f : S → B → S) (g : A → list B) (s : S) (l : list A) :
  foldl f s (l ≫= g) = foldl (λ s x, foldl f s (g x)) s l.
Proof.
  revert s. induction l as [|x l IH]; intros s; [done|].
  by rewrite bind_cons, foldl_app, IH.
Qed.

Lemma foldl_ext {A S} (f g : S → A → S) (s : S) (l : list A) :
  (∀ s x, f s x = g s x) → foldl f s l = foldl g s l.
Proof.
  intros Hfg. revert s. induction l as [|x l IH]; intros s; [done|].
  simpl. by rewrite Hfg, IH.
Qed.

(** The nested loops of lines 163-167 perform [dockerWrites], in order. *)
Lemma processDockerContainers_writes config dockerRoutes desiredRoutes :
  processDockerContainers config dockerRoutes desiredRoutes
  = foldl (λ m '(k, v), set k v m) desiredRoutes (dockerWrites config dockerRoutes).
Proof.
  unfold processDockerContainers, dockerWrites. rewrite foldl_bind.
  apply foldl_ext. intros m [slug backend]. by rewrite foldl_bind.
Qed.

(** The nested loops of lines 170-178 perform [manualWrites], in order. *)
Lemma processManualEntries_writes config desiredRoutes :
  processManualEntries config desiredRoutes
  = foldl (λ m '(k, v), set k v m) desiredRoutes (manualWrites config).
Proof.
  unfold processManualEntries, manualWrites. rewrite foldl_bind.
  apply foldl_ext. intros m [slug manualConfig]. by rewrite foldl_bind.
Qed.

Lemma buildDesiredRoutes_writes config dockerRoutes :
  buildDesiredRoutes config dockerRoutes
  = of_entries (dockerWrites config dockerRoutes ++ manualWrites config).
Proof.
  unfold buildDesiredRoutes, of_entries.
  by rewrite processManualEntries_writes, processDockerContainers_writes, foldl_app.
Qed.

Lemma buildDesiredRoutes_wf config dockerRoutes :
  wf (buildDesiredRoutes config dockerRoutes).
Proof. rewrite buildDesiredRoutes_writes. apply wf_of_entries. Qed.

Lemma last_write_app name ws1 ws2 :
  last_write name (ws1 ++ ws2)
  = match last_write name ws2 with
    | Some v => Some v
    | None => last_write name ws1
    end.
Proof. unfold last_write. by rewrite reverse_app, get_app. Qed.

Lemma last_write_elem name v ws : last_write name ws = Some v → (name, v) ∈ ws.
Proof. intros H%get_Some_elem. by apply elem_of_reverse. Qed.

Lemma last_write_None name ws : last_write name ws = None ↔ name ∉ ws.*1.
Proof.
  unfold last_write. by rewrite get_None, fmap_reverse, elem_of_reverse.
Qed.

Lemma last_write_agreed name v ws :
  (name, v) ∈ ws →
  Forall (λ write, write.1 = name → write.2 = v) ws →
  last_write name ws = Some v.
Proof.
  intros Hin Hall. destruct (last_write name ws) as [v'|] eqn:E.
  - apply last_write_elem in E. rewrite Forall_forall in Hall.
    by rewrite <- (Hall _ E).
  - apply last_write_None in E. destruct E.
    apply list_elem_of_fmap. by exists (name, v).
Qed.

(** The value of a name in the desired mapping: the last manual write if
    there is one, else the last container write. *)
Lemma buildDesiredRoutes_get config dockerRoutes name :
  get name (buildDesiredRoutes config dockerRoutes)
  = match last_write name (manualWrites config) with
    | Some backend => Some backend
    | None => last_write name (dockerWrites config dockerRoutes)
    end.
Proof.
  rewrite buildDesiredRoutes_writes. unfold of_entries.
  rewrite get_set_all, last_write_app. simpl.
  destruct (last_write name (manualWrites config)); [done|].
  by destruct (last_write name (dockerWrites config dockerRoutes)).
Qed.

Lemma elem_of_manualWrites config name backend :
  (name, backend) ∈ manualWrites config
  ↔ ∃ slug manualConfig suffix,
      (slug, manualConfig) ∈ manual config
      ∧ suffix ∈ manualSuffixes config manualConfig
      ∧ name = fullAddress slug suffix
      ∧ backend = manualBackend manualConfig.
Proof.
  unfold manualWrites. rewrite list_elem_of_bind. split.
  - intros ([slug manualConfig] & Hin & Hm).
    apply list_elem_of_bind in Hin as (suffix & Hin & Hs).
    apply list_elem_of_singleton in Hin as [= -> ->].
    by exists slug, manualConfig, suffix.
  - intros (slug & manualConfig & suffix & Hm & Hs & -> & ->).
    exists (slug, manualConfig). split; [|done].
    apply list_elem_of_bind. exists suffix. split; [|done].
    by apply list_elem_of_singleton.
Qed.

Lemma elem_of_dockerWrites config dockerRoutes name backend :
  (name, backend) ∈ dockerWrites config dockerRoutes
  ↔ ∃ slug suffix,
      (slug, backend) ∈ entries dockerRoutes
      ∧ suffix ∈ default_domain_suffix config
      ∧ name = slug +:+ "." +:+ suffix.
Proof.
  unfold dockerWrites. rewrite list_elem_of_bind. split.
  - intros ([slug backend'] & Hin & Hm).
    apply list_elem_of_bind in Hin as (suffix & Hin & Hs).
    apply list_elem_of_singleton in Hin as [= -> ->]. by exists slug, suffix.
  - intros (slug & suffix & Hm & Hs & ->).
    exists (slug, backend). split; [|done].
    apply list_elem_of_bind. exists suffix. split; [|done].
    by apply list_elem_of_singleton.
Qed.

Lemma manual_write_has config dockerRoutes name backend :
  (name, backend) ∈ manualWrites config →
  has name (buildDesiredRoutes config dockerRoutes) = true.
Proof.
  intros Hw. unfold has. rewrite buildDesiredRoutes_get.
  destruct (last_write name (manualWrites config)) eqn:E; [done|].
  apply last_write_None in E. destruct E.
  apply list_elem_of_fmap. by exists (name, backend).
Qed.

Lemma includes_dot suffix :
  JSString.includes "." suffix = true
  ↔ "."%char ∈ list_ascii_of_string suffix.
Proof.
  induction suffix as [|c s IH].
  - split; [done|]. by intros ?%elem_of_nil.
  - cbn [JSString.includes String.prefix list_ascii_of_string].
    rewrite elem_of_cons, <- IH.
    destruct (Ascii.ascii_dec "." c) as [<-|Hne].
    + split; [by left|]. intros _. by destruct s.
    + split; [by right|]. by intros [?|?].
Qed.

End BuildFacts.

(** ** Scanning the containers *)

Module ScanFacts.
Import JSMap JSMapFacts.

Lemma get_set_slugs backend (slugs : list string) routes k :
  get k (foldl (λ routes slug, set slug backend routes) routes slugs)
  = if decide (k ∈ slugs) then Some backend else get k routes.
Proof.
  induction slugs as [|slug slugs IH] using rev_ind.
  - cbn [foldl]. by destruct (decide (k ∈ [])) as [?%elem_of_nil|].
  - rewrite foldl_app. cbn [foldl]. rewrite get_set, IH.
    destruct (decide (k = slug)) as [->|Hne].
    + rewrite decide_True; [done|]. apply elem_of_app. right. left.
    + destruct (decide (k ∈ slugs)) as [Hin|Hnin].
      * rewrite decide_True; [done|]. apply elem_of_app. by left.
      * rewrite decide_False; [done|].
        intros [?|Hs%list_elem_of_singleton]%elem_of_app; done.
Qed.

Lemma wf_set_slugs backend (slugs : list string) routes :
  wf routes → wf (foldl (λ routes slug, set slug backend routes) routes slugs).
Proof.
  revert routes. induction slugs as [|slug slugs IH]; intros routes; [done|].
  intros Hr. simpl. by apply IH, wf_set.
Qed.

Lemma scanContainer_wf ip routes containerInfo :
  wf routes → wf (scanContainer ip routes containerInfo).
Proof.
  intros Hr. unfold scanContainer.
  destruct (Labels containerInfo !! "router.slug") as [slugsLabel|]; [|done].
  destruct (JSString.truthy slugsLabel); [|done].
  cbv zeta.
  destruct ((Ports containerInfo ≫= head) ≫= PublicPort) as [publicPort|];
    [|done].
  destruct (decide (publicPort = 0%Z)); [done|].
  by apply wf_set_slugs.
Qed.

(** A container overrides the slugs it carries and leaves the others. *)
Lemma scanContainer_get ip routes containerInfo k :
  get k (scanContainer ip routes containerInfo)
  = match get k (scanContainer ip empty containerInfo) with
    | Some backend => Some backend
    | None => get k routes
    end.
Proof.
  unfold scanContainer.
  destruct (Labels containerInfo !! "router.slug") as [slugsLabel|]; [|done].
  destruct (JSString.truthy slugsLabel); [|done].
  cbv zeta.
  destruct ((Ports containerInfo ≫= head) ≫= PublicPort) as [publicPort|];
    [|done].
  destruct (decide (publicPort = 0%Z)); [done|].
  rewrite !get_set_slugs. by case_decide.
Qed.

Lemma dockerRoutesOf_wf ip containers : wf (dockerRoutesOf ip containers).
Proof.
  destruct containers as [containers|]; [|apply wf_empty]. simpl.
  assert (∀ routes, wf routes → wf (foldl (scanContainer ip) routes containers)) as H.
  { induction containers as [|c cs IH]; intros routes Hr; [done|].
    simpl. by apply IH, scanContainer_wf. }
  apply H, wf_empty.
Qed.

Lemma scan_later_containers ip (after : list ContainerInfo) routes slug :
  Forall (λ c, get slug (scanContainer ip empty c) = None) after →
  get slug (foldl (scanContainer ip) routes after) = get slug routes.
Proof.
  revert routes. induction after as [|c cs IH]; intros routes; [done|].
  intros [Hc Hcs]%Forall_cons. simpl. rewrite IH by done.
  by rewrite scanContainer_get, Hc.
Qed.

(** The backend of a slug is the one of the last container that gives it
    one. *)
Lemma dockerRoutesOf_last ip before containerInfo after slug backend :
  get slug (scanContainer ip empty containerInfo) = Some backend →
  Forall (λ c, get slug (scanContainer ip empty c) = None) after →
  get slug (dockerRoutesOf ip (Some (before ++ containerInfo :: after)))
  = Some backend.
Proof.
  intros Hc Hafter. simpl. rewrite foldl_app. simpl.
  rewrite scan_later_containers by done.
  by rewrite scanContainer_get, Hc.
Qed.

End ScanFacts.

(** * The diff and its requests *)

Import JSMapFacts RunFacts DiffFacts CycleFacts.

(** C1. For a desired mapping [D] and an observed mapping [O], the diff and
    apply step sends exactly one add-or-update request for each name of [D]
    whose backend differs from the one [O] gives it (names absent from [O]
    included), carrying the backend of [D]; exactly one delete request for
    each name of [O] absent from [D]; and no request for any other name.
    When [D] and [O] agree on every name it sends nothing. *)
Theorem diff_issues_exactly_the_changes
    (desiredRoutes currentMappings : JSMap.t) (w : World) :
  JSMap.wf desiredRoutes →
  JSMap.wf currentMappings →
  let calls := calls_of (applyChanges desiredRoutes currentMappings) w in
  (∀ name,
     posted name calls
     = match JSMap.get name desiredRoutes with
       | Some backend =>
           if decide (JSMap.get name currentMappings = Some backend)
           then [] else [backend]
       | None => []
       end)
  ∧ (∀ name,
       deleted name calls
       = if JSMap.has name currentMappings
            && negb (JSMap.has name desiredRoutes)
         then 1 else 0)
  ∧ ((∀ name, JSMap.get name desiredRoutes = JSMap.get name currentMappings) →
     calls = []).
Proof.
  intros HD HO calls.
  destruct (applyChanges_steps desiredRoutes currentMappings w) as [Hs _].
  apply steps_calls_of in Hs. subst calls. rewrite Hs. clear Hs.
  split_and!.
  - intros name. rewrite posted_app, posted_additions by done.
    rewrite (posted_deletes _ _ (deletions_delete _ _)). apply app_nil_r.
  - intros name. rewrite deleted_app, deleted_deletions by done.
    by rewrite (deleted_adds _ _ (additions_add _ _)).
  - intros Heq. rewrite additions_nil, deletions_nil; [done| |done..].
    intros name. by rewrite Heq.
Qed.

Lemma diff_issues_exactly_the_changes_witness :
  let calls := calls_of (applyChanges sample_desired sample_observed) sample_world in
  posted "a.lan" calls = ["10.0.0.1:1"]
  ∧ posted "b.lan" calls = []
  ∧ posted "c.lan" calls = ["10.0.0.3:3"]
  ∧ deleted "old.lan" calls = 1
  ∧ deleted "c.lan" calls = 0
  ∧ calls_of (applyChanges sample_desired sample_desired) sample_world = [].
Proof.
  assert (JSMap.wf sample_desired) as HD
    by (apply (bool_decide_unpack _); vm_compute; reflexivity).
  assert (JSMap.wf sample_observed) as HO
    by (apply (bool_decide_unpack _); vm_compute; reflexivity).
  destruct (diff_issues_exactly_the_changes sample_desired sample_observed
              sample_world HD HO) as (Hposted & Hdeleted & _).
  split_and!.
  - exact (Hposted "a.lan").
  - exact (Hposted "b.lan").
  - exact (Hposted "c.lan").
  - exact (Hdeleted "old.lan").
  - exact (Hdeleted "c.lan").
  - apply (diff_issues_exactly_the_changes sample_desired sample_desired
             sample_world HD HD).
    intros name. reflexivity.
Defined.

Example diff_sample :
  calls_of (applyChanges sample_desired sample_observed) sample_world
  = [AddOrUpdateRoute "a.lan" "10.0.0.1:1"; AddOrUpdateRoute "c.lan" "10.0.0.3:3";
     DeleteRoute "old.lan"].
Proof. vm_compute. reflexivity. Qed.

(** C6. Within one cycle every add-or-update request is sent before every
    delete request: the requests of the cycle are a run of add-or-update
    requests followed by a run of delete requests, so no delete comes at an
    earlier position than an add-or-update. *)
Theorem adds_precede_deletes (w : World) :
  let calls := calls_of syncRoutes w in
  (∃ adds dels,
     calls = adds ++ dels ∧ Forall is_add adds ∧ Forall is_delete dels)
  ∧ (∀ i j address address' backend,
       calls !! i = Some (DeleteRoute address) →
       calls !! j = Some (AddOrUpdateRoute address' backend) →
       j < i).
Proof.
  intros calls. subst calls. rewrite syncRoutes_calls.
  destruct (config_file w) as [config|], (getMcRouterRoutes w).1 as [currentRoutes|];
    try (split; [by exists [], []|intros i j ? ? ? Hi; by rewrite lookup_nil in Hi]).
  cbv zeta. split.
  - eexists _, _. split_and!; [done|apply additions_add|apply deletions_delete].
  - intros i j address address' backend. apply calls_in_order.
Qed.

Lemma adds_precede_deletes_witness :
  let calls := calls_of syncRoutes sample_world in
  calls !! 7 = Some (DeleteRoute "old.example.com")
  ∧ calls !! 6 = Some (AddOrUpdateRoute "a" "10.0.0.7:7000")
  ∧ 6 < 7.
Proof.
  assert (calls_of syncRoutes sample_world !! 7
          = Some (DeleteRoute "old.example.com")) as Hi
    by (vm_compute; reflexivity).
  assert (calls_of syncRoutes sample_world !! 6
          = Some (AddOrUpdateRoute "a" "10.0.0.7:7000")) as Hj
    by (vm_compute; reflexivity).
  split_and!; [exact Hi|exact Hj|].
  exact (proj2 (adds_precede_deletes sample_world) 7 6 _ _ _ Hi Hj).
Defined.

(** C10. In one cycle the names that receive an add-or-update request and
    the names that receive a delete request are disjoint, and a name of the
    desired mapping is never deleted, whatever backend the router holds for
    it. *)
Theorem added_and_deleted_names_disjoint (w : World) :
  let calls := calls_of syncRoutes w in
  added_names calls ## deleted_names calls
  ∧ (∀ config name,
       config_file w = Some config →
       JSMap.has name (buildDesiredRoutes config (getDockerRoutes w).1) = true →
       name ∉ deleted_names calls).
Proof.
  intros calls. subst calls. rewrite syncRoutes_calls.
  destruct (config_file w) as [config|]; [|split; [set_solver|done]].
  destruct (getMcRouterRoutes w).1 as [currentRoutes|];
    [|split; [set_solver|intros; set_solver]].
  cbv zeta.
  set (D := buildDesiredRoutes config (getDockerRoutes w).1).
  set (O := JSMap.of_entries currentRoutes).
  assert (∀ name, name ∈ deleted_names (additions D O ++ deletions D O) →
                  JSMap.has name D = false) as Hdel.
  { intros name. unfold deleted_names.
    rewrite elem_of_list_to_set, list_elem_of_omap.
    intros ([address backend|address] & Hin & Heq); [done|].
    injection Heq as ->. apply elem_of_app in Hin as [Hin|Hin].
    - pose proof (additions_add D O) as Ha. rewrite Forall_forall in Ha.
      by apply Ha in Hin.
    - by apply elem_of_deletions in Hin as [_ ?]. }
  split.
  - intros name Hadd Hd. apply Hdel in Hd.
    unfold added_names in Hadd.
    rewrite elem_of_list_to_set, list_elem_of_omap in Hadd.
    destruct Hadd as ([address backend|address] & Hin & Heq); [|done].
    injection Heq as ->. apply elem_of_app in Hin as [Hin|Hin].
    + apply elem_of_additions in Hin as [Hin _].
      apply has_false in Hd. destruct Hd.
      apply list_elem_of_fmap. by exists (name, backend).
    + pose proof (deletions_delete D O) as Ha. rewrite Forall_forall in Ha.
      by apply Ha in Hin.
  - intros config' name [= <-] Hhas Hd. apply Hdel in Hd.
    fold D in Hhas. congruence.
Qed.

Lemma added_and_deleted_names_disjoint_witness :
  "foo" ∉ deleted_names (calls_of syncRoutes sample_world).
Proof.
  apply (proj2 (added_and_deleted_names_disjoint sample_world) sample_config "foo");
    vm_compute; reflexivity.
Defined.

(** * Failure of the fetch, and applying twice *)

Import RouterFacts BuildFacts.

(** C5. When the fetch of the observed state fails, the cycle sends no
    add-or-update and no delete request, ends as skipped, and leaves the
    router's table as it was. *)
Theorem fetch_failure_skips_cycle (w : World) :
  (getMcRouterRoutes w).1 = None →
  skipped (syncRoutes w).1 = true
  ∧ calls_of syncRoutes w = []
  ∧ issued (syncRoutes w).2 = issued w
  ∧ router (syncRoutes w).2 = router w
  ∧ (∀ config, config_file w = Some config → (syncRoutes w).1 = SkippedFetch).
Proof.
  intros Hfetch. rewrite syncRoutes_calls, Hfetch, syncRoutes_run.
  destruct (config_file w) as [config|]; [|done].
  cbv zeta. rewrite getMcRouterRoutes_lastKnownConfig, Hfetch. cbn [fst snd].
  destruct (getMcRouterRoutes_quiet (with_lastKnownConfig (Some config) w))
    as (Hi & Hr & _).
  by rewrite Hi, Hr.
Qed.

Lemma fetch_failure_skips_cycle_witness :
  let w := with_outages [true] sample_world in
  (syncRoutes w).1 = SkippedFetch
  ∧ calls_of syncRoutes w = []
  ∧ router (syncRoutes w).2 = router sample_world.
Proof.
  intros w.
  destruct (fetch_failure_skips_cycle w) as (_ & Hcalls & _ & Hrouter & Hout).
  - vm_compute. reflexivity.
  - split_and!; [|exact Hcalls|exact Hrouter].
    apply (Hout sample_config). reflexivity.
Defined.

(** C7. Applying the same desired mapping twice in a row is idempotent: when
    the first application is diffed against the table the router holds and
    every request of it succeeds, the router then holds the desired mapping,
    and the second application, diffed against that table, sends no request
    and changes nothing. *)
Theorem second_application_is_silent
    (desiredRoutes currentMappings currentMappings' : JSMap.t) (w : World) :
  JSMap.wf desiredRoutes →
  list_to_map currentMappings = router w →
  all_succeed w →
  list_to_map currentMappings'
  = router (applyChanges desiredRoutes currentMappings w).2 →
  let w1 := (applyChanges desiredRoutes currentMappings w).2 in
  (∀ name, router w1 !! name = JSMap.get name desiredRoutes)
  ∧ calls_of (applyChanges desiredRoutes currentMappings') w1 = []
  ∧ applyChanges desiredRoutes currentMappings' w1 = (false, w1).
Proof.
  intros HD HO Hok HO' w1.
  destruct (applyChanges_converges desiredRoutes currentMappings w)
    as (_ & _ & Hheld); [done| |done|].
  { intros name. by rewrite get_list_to_map, HO. }
  fold w1 in Hheld.
  destruct (applyChanges_silent desiredRoutes currentMappings' w1) as [Hrun Hcalls];
    [done| |done].
  intros name. by rewrite get_list_to_map, HO', Hheld.
Qed.

Lemma second_application_is_silent_witness :
  let w1 := (applyChanges sample_desired
               (map_to_list (router sample_world)) sample_world).2 in
  (∀ name, router w1 !! name = JSMap.get name sample_desired)
  ∧ calls_of (applyChanges sample_desired (reverse sample_desired)) w1 = []
  ∧ applyChanges sample_desired (reverse sample_desired) w1 = (false, w1).
Proof.
  apply (second_application_is_silent sample_desired
           (map_to_list (router sample_world)) (reverse sample_desired)
           sample_world).
  - apply (bool_decide_unpack _). vm_compute. reflexivity.
  - vm_compute. reflexivity.
  - apply (bool_decide_unpack _). vm_compute. reflexivity.
  - vm_compute. reflexivity.
Defined.

(** X16. Two cycles in a row, with the configuration, the containers and the
    router left alone in between and every exchange succeeding: after the
    first one the router holds the desired mapping, and the second one finds
    nothing to do. *)
Theorem second_cycle_is_silent (w : World) (config : Config) :
  all_succeed w →
  config_file w = Some config →
  let w1 := (syncRoutes w).2 in
  (∀ name,
     router w1 !! name
     = JSMap.get name (buildDesiredRoutes config (getDockerRoutes w).1))
  ∧ (syncRoutes w1).1 = NoChanges
  ∧ calls_of syncRoutes w1 = [].
Proof.
  intros Hok Hc w1.
  set (D := buildDesiredRoutes config (getDockerRoutes w).1).
  pose proof (buildDesiredRoutes_wf config (getDockerRoutes w).1) as HD.
  fold D in HD.
  (* the first cycle *)
  set (w0 := with_lastKnownConfig (Some config) w).
  destruct (getMcRouterRoutes_quiet w0) as (_ & Hr0 & Hq0).
  destruct (Hq0 Hok) as [Hok0 Hf0].
  destruct (getMcRouterRoutes_same_inputs w0) as (Hc0 & Hd0 & He0).
  assert (w1 = (applyChanges D (JSMap.of_entries (map_to_list (router w0)))
                             (getMcRouterRoutes w0).2).2) as Hw1.
  { subst w1. rewrite syncRoutes_run, Hc. cbv zeta. fold w0. by rewrite Hf0. }
  destruct (applyChanges_converges D (JSMap.of_entries (map_to_list (router w0)))
              (getMcRouterRoutes w0).2) as (Hok1 & (Hc1 & Hd1 & He1) & Hheld);
    [done| |done|].
  { intros name. by rewrite get_map_to_list, Hr0. }
  rewrite <- Hw1 in Hok1, Hc1, Hd1, He1, Hheld.
  (* the second cycle reads the same inputs *)
  assert (config_file w1 = Some config) as Hc' by (by rewrite Hc1, Hc0).
  assert ((getDockerRoutes w1).1 = (getDockerRoutes w).1) as Hdocker.
  { unfold getDockerRoutes, DOCKER_HOST_IP. simpl.
    by rewrite Hd1, Hd0, He1, He0. }
  set (w2 := with_lastKnownConfig (Some config) w1).
  destruct (getMcRouterRoutes_quiet w2) as (_ & Hr2 & Hq2).
  destruct (Hq2 Hok1) as [_ Hf2].
  destruct (applyChanges_silent D (JSMap.of_entries (map_to_list (router w2)))
              (getMcRouterRoutes w2).2) as [Hrun _]; [done| |].
  { intros name. by rewrite get_map_to_list, <- Hheld. }
  split_and!; [done| |].
  - rewrite syncRoutes_run, Hc'. cbv zeta. fold w2.
    rewrite Hf2, Hdocker. fold D. by rewrite Hrun.
  - rewrite syncRoutes_calls, Hc'.
    rewrite <- (getMcRouterRoutes_lastKnownConfig (Some config) w1). fold w2.
    rewrite Hf2. cbv zeta. rewrite Hdocker. fold D.
    rewrite additions_nil, deletions_nil; [done| |done|].
    + intros name. by rewrite get_map_to_list, <- Hheld.
    + intros name. by rewrite get_map_to_list, <- Hheld.
Qed.

Lemma second_cycle_is_silent_witness :
  (syncRoutes (syncRoutes sample_world).2).1 = NoChanges
  ∧ calls_of syncRoutes (syncRoutes sample_world).2 = [].
Proof.
  apply (second_cycle_is_silent sample_world sample_config).
  - apply (bool_decide_unpack _). vm_compute. reflexivity.
  - reflexivity.
Defined.

(** * The desired mapping *)

Import BuildFacts ScanFacts.

(** C2. For a manual entry [(slug, manualConfig)] and each suffix of the
    list chosen for it, the route name written is the bare slug when the
    suffix contains a '.' and [slug.suffix] otherwise; the test is made
    suffix by suffix, and the name written is a name of the desired
    mapping. *)
Theorem manual_route_name
    (config : Config) (dockerRoutes : JSMap.t)
    (slug : string) (manualConfig : ManualServerConfig) (suffix : string) :
  (slug, manualConfig) ∈ manual config →
  suffix ∈ manualSuffixes config manualConfig →
  ("."%char ∈ list_ascii_of_string suffix → fullAddress slug suffix = slug)
  ∧ ("."%char ∉ list_ascii_of_string suffix →
     fullAddress slug suffix = slug +:+ "." +:+ suffix)
  ∧ (fullAddress slug suffix, manualBackend manualConfig) ∈ manualWrites config
  ∧ JSMap.has (fullAddress slug suffix)
              (buildDesiredRoutes config dockerRoutes) = true.
Proof.
  intros Hm Hs.
  assert ((fullAddress slug suffix, manualBackend manualConfig)
          ∈ manualWrites config) as Hw.
  { apply elem_of_manualWrites. by exists slug, manualConfig, suffix. }
  split_and!; [| |done|].
  - intros Hdot%includes_dot. unfold fullAddress. by rewrite Hdot.
  - intros Hdot. unfold fullAddress.
    destruct (JSString.includes "." suffix) eqn:E; [|done].
    by apply includes_dot in E.
  - by eapply manual_write_has.
Qed.

Lemma manual_route_name_witness :
  let foo := {| host := "10.0.0.5"; port := 9000;
                override_suffix := Some ["example.com"; "lan"] |} in
  let desiredRoutes :=
    buildDesiredRoutes sample_config (getDockerRoutes sample_world).1 in
  (fullAddress "foo" "example.com" = "foo"
   ∧ JSMap.has "foo" desiredRoutes = true)
  ∧ (fullAddress "foo" "lan" = "foo.lan"
     ∧ JSMap.has "foo.lan" desiredRoutes = true).
Proof.
  intros foo desiredRoutes.
  assert ((("foo", foo) : string * ManualServerConfig) ∈ manual sample_config)
    as Hm by (apply (bool_decide_unpack _); vm_compute; reflexivity).
  split.
  - destruct (manual_route_name sample_config (getDockerRoutes sample_world).1
                "foo" foo "example.com" Hm) as (Hdot & _ & _ & Hhas).
    + apply (bool_decide_unpack _). vm_compute. reflexivity.
    + split; [|exact Hhas]. apply Hdot.
      apply (bool_decide_unpack _). vm_compute. reflexivity.
  - destruct (manual_route_name sample_config (getDockerRoutes sample_world).1
                "foo" foo "lan" Hm) as (_ & Hplain & _ & Hhas).
    + apply (bool_decide_unpack _). vm_compute. reflexivity.
    + split; [|exact Hhas]. apply Hplain.
      apply (bool_decide_unpack _). vm_compute. reflexivity.
Defined.

(** C3, as the specification states it, fails: an entry whose
    [override_suffix] is present and empty does not fall back to the default
    suffix list; it uses the empty list and yields no route. *)
Lemma empty_override_is_not_defaulted :
  override_suffix empty_override_entry = Some []
  ∧ default_domain_suffix empty_override_config = ["lan"]
  ∧ manualSuffixes empty_override_config empty_override_entry = []
  ∧ manualSuffixes empty_override_config empty_override_entry
    ≠ specSuffixes empty_override_config empty_override_entry
  ∧ buildDesiredRoutes empty_override_config JSMap.empty = [].
Proof. by split_and!. Qed.

(** C3, amended. The suffix list of a manual entry is its [override_suffix]
    whenever that field is present, empty or not, and the default suffix list
    when it is absent.  It is the list the specification describes except
    for a present and empty override, and an entry with such an override
    writes no route. *)
Theorem suffix_list_choice (config : Config) (manualConfig : ManualServerConfig) :
  (∀ suffixes,
     override_suffix manualConfig = Some suffixes →
     manualSuffixes config manualConfig = suffixes)
  ∧ (override_suffix manualConfig = None →
     manualSuffixes config manualConfig = default_domain_suffix config)
  ∧ (override_suffix manualConfig ≠ Some [] →
     manualSuffixes config manualConfig = specSuffixes config manualConfig)
  ∧ (override_suffix manualConfig = Some [] →
     ∀ slug desiredRoutes,
       processManualEntries
         {| default_domain_suffix := default_domain_suffix config;
            manual := [(slug, manualConfig)] |} desiredRoutes
       = desiredRoutes).
Proof.
  unfold manualSuffixes, specSuffixes, processManualEntries, manualSuffixes.
  simpl. split_and!.
  - by intros suffixes ->.
  - by intros ->.
  - by destruct (override_suffix manualConfig) as [[|]|].
  - by intros ->.
Qed.

Lemma suffix_list_choice_witness :
  manualSuffixes sample_config
    {| host := "10.0.0.5"; port := 9000;
       override_suffix := Some ["example.com"; "lan"] |}
  = ["example.com"; "lan"]
  ∧ manualSuffixes sample_config
      {| host := "10.0.0.7"; port := 7000; override_suffix := None |}
    = ["mc.test"; "lan"]
  ∧ manualSuffixes empty_override_config
      {| host := "10.0.0.7"; port := 7000; override_suffix := None |}
    = specSuffixes empty_override_config
        {| host := "10.0.0.7"; port := 7000; override_suffix := None |}
  ∧ processManualEntries empty_override_config sample_desired = sample_desired.
Proof.
  split_and!.
  - apply (proj1 (suffix_list_choice sample_config _)). reflexivity.
  - apply (proj1 (proj2 (suffix_list_choice sample_config _))). reflexivity.
  - apply (proj1 (proj2 (proj2 (suffix_list_choice empty_override_config _)))).
    simpl. discriminate.
  - apply (proj2 (proj2 (proj2
             (suffix_list_choice empty_override_config empty_override_entry)))
             eq_refl "bar" sample_desired).
Defined.



(** When two manual entries write the same name, the one enumerated last
    is kept. *)
Example later_manual_entry_wins :
  JSMap.get "a.b"
    (buildDesiredRoutes
       {| default_domain_suffix := ["b"];
          manual := [("a", {| host := "h1"; port := 1; override_suffix := None |});
                     ("a.b", {| host := "h2"; port := 2;
                                override_suffix := Some ["x.y"] |})] |}
       [("a", "127.0.0.1:3")])
  = Some "h2:2".
Proof. reflexivity. Qed.

(** C8. When the scan of the containers fails, [getDockerRoutes] yields no
    route and the cycle goes on: the desired mapping is built from the
    manual entries alone, its names are exactly the names they write, and
    when the fetch succeeds the cycle is not skipped and sends the requests
    of the diff of that mapping against the observed one. *)
Theorem discovery_failure_keeps_manual_routes (w : World) (config : Config) :
  docker_containers w = None →
  config_file w = Some config →
  let desiredRoutes := buildDesiredRoutes config (getDockerRoutes w).1 in
  (getDockerRoutes w).1 = JSMap.empty
  ∧ desiredRoutes = JSMap.of_entries (manualWrites config)
  ∧ (∀ name,
       JSMap.has name desiredRoutes = true
       ↔ ∃ slug manualConfig suffix,
           (slug, manualConfig) ∈ manual config
           ∧ suffix ∈ manualSuffixes config manualConfig
           ∧ name = fullAddress slug suffix)
  ∧ (∀ name backend,
       JSMap.get name desiredRoutes = Some backend →
       (name, backend) ∈ manualWrites config)
  ∧ (∀ currentRoutes,
       (getMcRouterRoutes w).1 = Some currentRoutes →
       skipped (syncRoutes w).1 = false
       ∧ calls_of syncRoutes w
         = calls_of (applyChanges desiredRoutes
                       (JSMap.of_entries currentRoutes)) w).
Proof.
  intros Hd Hc desiredRoutes.
  assert ((getDockerRoutes w).1 = JSMap.empty) as Hempty.
  { unfold getDockerRoutes. simpl. by rewrite Hd. }
  assert (desiredRoutes = JSMap.of_entries (manualWrites config)) as HD.
  { subst desiredRoutes. by rewrite Hempty, buildDesiredRoutes_writes. }
  split_and!; [done|done| | |].
  - intros name. rewrite has_true. split.
    + intros Hin. destruct (JSMap.get name desiredRoutes) as [backend|] eqn:E;
        [|by apply get_None in E].
      rewrite HD in E. unfold JSMap.of_entries in E.
      rewrite get_set_all in E.
      destruct (last_write name (manualWrites config)) as [b|] eqn:El; [|done].
      apply last_write_elem, elem_of_manualWrites in El
        as (slug & manualConfig & suffix & ? & ? & ? & _).
      by exists slug, manualConfig, suffix.
    + intros (slug & manualConfig & suffix & Hm & Hs & ->).
      apply has_true.
      apply (manual_write_has _ _ _ (manualBackend manualConfig)).
      apply elem_of_manualWrites. by exists slug, manualConfig, suffix.
  - intros name backend E. rewrite HD in E. unfold JSMap.of_entries in E.
    rewrite get_set_all in E.
    destruct (last_write name (manualWrites config)) as [b|] eqn:El; [|done].
    injection E as <-. by apply last_write_elem.
  - intros currentRoutes Hf. split.
    + rewrite syncRoutes_run, Hc. cbv zeta.
      rewrite getMcRouterRoutes_lastKnownConfig, Hf. cbn [fst].
      by match goal with |- context [if ?b then _ else _] => destruct b end.
    + rewrite syncRoutes_calls, Hc, Hf. cbv zeta. symmetry.
      apply steps_calls_of, applyChanges_steps.
Qed.

Lemma discovery_failure_keeps_manual_routes_witness :
  let w := {| config_file := Some sample_config;
              docker_containers := None;
              env_DOCKER_HOST_IP := None;
              router := {[ "a.mc.test" := "192.168.1.10:25566" ]};
              outages := [];
              issued := [];
              lastKnownConfig := None |} in
  (getDockerRoutes w).1 = JSMap.empty
  ∧ skipped (syncRoutes w).1 = false
  ∧ calls_of syncRoutes w
    = [AddOrUpdateRoute "foo" "10.0.0.5:9000";
       AddOrUpdateRoute "foo.lan" "10.0.0.5:9000";
       AddOrUpdateRoute "a" "10.0.0.7:7000";
       AddOrUpdateRoute "a.lan" "10.0.0.7:7000";
       DeleteRoute "a.mc.test"].
Proof.
  intros w.
  destruct (discovery_failure_keeps_manual_routes w sample_config eq_refl eq_refl)
    as (Hempty & _ & _ & _ & Hrun).
  destruct (Hrun [("a.mc.test", "192.168.1.10:25566")]) as [Hs Hcalls].
  { vm_compute. reflexivity. }
  split_and!; [exact Hempty|exact Hs|].
  rewrite Hcalls. vm_compute. reflexivity.
Defined.

(** C9, as stated, fails in two ways.  Three records, two carrying the
    slug [a] (the last one with port 3) and one carrying [a.b] (port 2),
    under the suffixes [b.c] and [c]: the route names of [a] are [a.b.c] and
    [a.c], and they end with different container backends, [a.b.c] with the
    one of [a.b].  And when the record enumerated last for a slug has no
    published port, the slug keeps the backend of the record before it. *)
Lemma slug_expansions_can_differ :
  let dockerRoutes := dockerRoutesOf "127.0.0.1" (Some colliding_containers) in
  let desiredRoutes := buildDesiredRoutes colliding_config dockerRoutes in
  JSMap.get "a" dockerRoutes = Some "127.0.0.1:3"
  ∧ "a" +:+ "." +:+ "b.c" = "a.b.c"
  ∧ "a" +:+ "." +:+ "c" = "a.c"
  ∧ JSMap.get "a.b.c" desiredRoutes = Some "127.0.0.1:2"
  ∧ JSMap.get "a.c" desiredRoutes = Some "127.0.0.1:3"
  ∧ JSMap.get "a.b.c" desiredRoutes ≠ JSMap.get "a.c" desiredRoutes
  ∧ JSMap.get "a" (dockerRoutesOf "127.0.0.1" (Some unpublished_last_containers))
    = Some "127.0.0.1:1"
  ∧ last unpublished_last_containers
    = Some {| Labels := {[ "router.slug" := "a" ]}; Ports := Some [] |}.
Proof. vm_compute. by split_and!. Qed.

(** C9, amended. Container routes are deduplicated by slug before the
    suffixes are applied: [getDockerRoutes] keeps one backend per slug, the
    one of the last record enumerated that lists the slug and has a
    published first port (a record without one sets nothing), and every
    route name generated for the slug is written with that backend.  In the
    mapping built from the containers a route name holds the backend of the
    slug written last under that name: the slug's own when no other slug
    expands to the same name, that other slug's when it comes later. *)
Theorem slug_backend_from_last_container
    (ip : string) (before : list ContainerInfo) (containerInfo : ContainerInfo)
    (after : list ContainerInfo) (slug backend : string) (config : Config) :
  JSMap.get slug (scanContainer ip JSMap.empty containerInfo) = Some backend →
  Forall (λ c, JSMap.get slug (scanContainer ip JSMap.empty c) = None) after →
  let dockerRoutes :=
    dockerRoutesOf ip (Some (before ++ containerInfo :: after)) in
  let built := processDockerContainers config dockerRoutes JSMap.empty in
  JSMap.wf dockerRoutes
  ∧ JSMap.get slug dockerRoutes = Some backend
  ∧ (∀ backend',
       (slug, backend') ∈ JSMap.entries dockerRoutes → backend' = backend)
  ∧ (∀ suffix,
       suffix ∈ default_domain_suffix config →
       (slug +:+ "." +:+ suffix, backend) ∈ dockerWrites config dockerRoutes
       ∧ ∃ slug' suffix' backend',
           suffix' ∈ default_domain_suffix config
           ∧ slug' +:+ "." +:+ suffix' = slug +:+ "." +:+ suffix
           ∧ JSMap.get slug' dockerRoutes = Some backend'
           ∧ last_write (slug +:+ "." +:+ suffix)
                        (dockerWrites config dockerRoutes) = Some backend'
           ∧ JSMap.get (slug +:+ "." +:+ suffix) built = Some backend')
  ∧ (∀ suffix,
       suffix ∈ default_domain_suffix config →
       Forall (λ entry,
                 Forall (λ suffix',
                           entry.1 +:+ "." +:+ suffix'
                           = slug +:+ "." +:+ suffix →
                           entry.1 = slug)
                        (default_domain_suffix config))
              (JSMap.entries dockerRoutes) →
       JSMap.get (slug +:+ "." +:+ suffix) built = Some backend).
Proof.
  intros Hc Hafter dockerRoutes built.
  pose proof (dockerRoutesOf_wf ip (Some (before ++ containerInfo :: after)))
    as Hwf.
  pose proof (dockerRoutesOf_last ip before _ _ _ _ Hc Hafter) as Hget.
  fold dockerRoutes in Hwf, Hget.
  assert (∀ suffix, suffix ∈ default_domain_suffix config →
            (slug +:+ "." +:+ suffix, backend)
            ∈ dockerWrites config dockerRoutes) as Hw.
  { intros suffix Hs. apply elem_of_dockerWrites. exists slug, suffix.
    split_and!; [|done..]. by apply get_Some_elem. }
  assert (∀ name, JSMap.get name built
                  = last_write name (dockerWrites config dockerRoutes)) as Hb.
  { intros name. subst built.
    rewrite processDockerContainers_writes, get_set_all.
    by destruct (last_write name (dockerWrites config dockerRoutes)). }
  assert (∀ suffix, suffix ∈ default_domain_suffix config →
            ∃ slug' suffix' backend',
              suffix' ∈ default_domain_suffix config
              ∧ slug' +:+ "." +:+ suffix' = slug +:+ "." +:+ suffix
              ∧ JSMap.get slug' dockerRoutes = Some backend'
              ∧ last_write (slug +:+ "." +:+ suffix)
                           (dockerWrites config dockerRoutes) = Some backend'
              ∧ JSMap.get (slug +:+ "." +:+ suffix) built = Some backend')
    as Hlast.
  { intros suffix Hs.
    destruct (last_write (slug +:+ "." +:+ suffix)
                (dockerWrites config dockerRoutes)) as [backend'|] eqn:E.
    - pose proof (last_write_elem _ _ _ E) as Hin.
      apply elem_of_dockerWrites in Hin as (slug' & suffix' & Hin & Hs' & Heq).
      exists slug', suffix', backend'.
      split_and!; [done|done|by apply wf_get|done|by rewrite Hb].
    - apply last_write_None in E. destruct E.
      apply list_elem_of_fmap. exists (slug +:+ "." +:+ suffix, backend).
      split; [done|by apply Hw]. }
  split_and!; [done|done| | |].
  - intros backend' Hin. apply (wf_get _ _ _ Hwf) in Hin. congruence.
  - intros suffix Hs. split; [by apply Hw|by apply Hlast].
  - intros suffix Hs Honly.
    destruct (Hlast suffix Hs) as (slug' & suffix' & backend' & Hs' & Heq & Hg & _ & Hbuilt).
    rewrite Hbuilt. rewrite Forall_forall in Honly.
    specialize (Honly (slug', backend') (get_Some_elem _ _ _ Hg)).
    rewrite Forall_forall in Honly. specialize (Honly suffix' Hs' Heq).
    simpl in Honly. subst slug'. congruence.
Qed.

Lemma slug_backend_from_last_container_witness :
  let dockerRoutes := dockerRoutesOf "192.168.1.10" (Some sample_containers) in
  let built := processDockerContainers sample_config dockerRoutes JSMap.empty in
  JSMap.get "a" dockerRoutes = Some "192.168.1.10:25566"
  ∧ ("a.lan", "192.168.1.10:25566") ∈ dockerWrites sample_config dockerRoutes
  ∧ JSMap.get "a.lan" built = Some "192.168.1.10:25566"
  ∧ JSMap.get "a.mc.test" built = Some "192.168.1.10:25566".
Proof.
  intros dockerRoutes built.
  destruct (slug_backend_from_last_container "192.168.1.10"
              [ {| Labels := {[ "router.slug" := "a, b" ]};
                   Ports := Some [ {| PublicPort := Some 25565%Z |} ] |} ]
              {| Labels := {[ "router.slug" := "a" ]};
                 Ports := Some [ {| PublicPort := Some 25566%Z |} ] |}
              [] "a" "192.168.1.10:25566" sample_config)
    as (_ & Hget & _ & Hwritten & Hname).
  - vm_compute. reflexivity.
  - apply Forall_nil_2.
  - split_and!; [exact Hget| | |].
    + apply (Hwritten "lan").
      apply (bool_decide_unpack _). vm_compute. reflexivity.
    + apply (Hname "lan").
      * apply (bool_decide_unpack _). vm_compute. reflexivity.
      * apply (bool_decide_unpack _). vm_compute. reflexivity.
    + apply (Hname "mc.test").
      * apply (bool_decide_unpack _). vm_compute. reflexivity.
      * apply (bool_decide_unpack _). vm_compute. reflexivity.
Defined.

(** * Scenarios *)

(** A manual entry under the default suffix list [example.com]: the suffix
    contains a '.', so the one request carries the bare slug. *)
Example manual_only_cycle :
  syncRoutes scenario_manual_only
  = (ChangesApplied,
     {| config_file := config_file scenario_manual_only;
        docker_containers := Some [];
        env_DOCKER_HOST_IP := None;
        router := {[ "foo" := "10.0.0.5:9000" ]};
        outages := [];
        issued := [AddOrUpdateRoute "foo" "10.0.0.5:9000"];
        lastKnownConfig := config_file scenario_manual_only |}).
Proof. vm_compute. reflexivity. Qed.

(** One container labelled [a,b] with published port 25565. *)
Example two_slugs_cycle :
  calls_of syncRoutes scenario_two_slugs
  = [AddOrUpdateRoute "a.mc.test" "192.168.1.10:25565";
     AddOrUpdateRoute "b.mc.test" "192.168.1.10:25565"].
Proof. vm_compute. reflexivity. Qed.

(** A route the router holds and nothing desires is deleted, once. *)
Example stale_route_cycle :
  calls_of syncRoutes scenario_stale_route = [DeleteRoute "old.example.com"].
Proof. vm_compute. reflexivity. Qed.

(** ** Slugs and ports of the containers *)

Module SlugFacts.
Import JSMap JSMapFacts ScanFacts.

Lemma split_no_separator sep s :
  Forall (λ piece, sep ∉ list_ascii_of_string piece) (JSString.split sep s).
Proof.
  induction s as [|c s IH]; simpl.
  - repeat constructor. apply not_elem_of_nil.
  - destruct (Ascii.eqb c sep) eqn:E.
    + constructor; [apply not_elem_of_nil|done].
    + apply Ascii.eqb_neq in E.
      destruct (JSString.split sep s) as [|piece pieces].
      * repeat constructor. simpl. by intros [?|?%elem_of_nil]%elem_of_cons.
      * apply Forall_cons in IH as [Hp Hps]. constructor; [|done].
        simpl. by intros [?|?]%elem_of_cons.
Qed.

Lemma strip_prefix_Some p l l' :
  JSString.strip_prefix p l = Some l' ↔ l = p ++ l'.
Proof.
  revert l. induction p as [|a p IH]; intros l; simpl.
  - split; [by intros [= ->]|by intros ->].
  - destruct l as [|b l]; [done|].
    destruct (Ascii.eqb a b) eqn:E.
    + apply Ascii.eqb_eq in E as ->. rewrite IH. split; [by intros ->|].
      by intros [= ->].
    + apply Ascii.eqb_neq in E. split; [done|]. by intros [= ? _].
Qed.

Lemma strip_any_Some ps l l' :
  JSString.strip_any ps l = Some l' → ∃ p, p ∈ ps ∧ l = p ++ l'.
Proof.
  induction ps as [|p ps IH]; simpl; [done|].
  destruct (JSString.strip_prefix p l) as [l0|] eqn:E.
  - intros [= ->]. exists p. split; [left|by apply strip_prefix_Some].
  - intros (p' & ? & ?)%IH. exists p'. split; [by right|done].
Qed.

Lemma strip_any_None ps l :
  JSString.strip_any ps l = None ↔ Forall (λ p, ¬ p `prefix_of` l) ps.
Proof.
  induction ps as [|p ps IH]; simpl; [by split; [constructor|]|].
  rewrite Forall_cons, <- IH.
  destruct (JSString.strip_prefix p l) as [l0|] eqn:E.
  - apply strip_prefix_Some in E. split; [done|]. intros [Hp _].
    destruct Hp. by exists l0.
  - split; [|by intros [_ ?]]. intros ?. split; [|done].
    intros [l0 Hl0]. apply strip_prefix_Some in Hl0. congruence.
Qed.

Lemma strip_leading_suffix ps fuel l :
  JSString.strip_leading ps fuel l `suffix_of` l.
Proof.
  revert l. induction fuel as [|fuel IH]; intros l; simpl; [done|].
  destruct (JSString.strip_any ps l) as [l'|] eqn:E; [|done].
  apply strip_any_Some in E as (p & _ & ->).
  etrans; [apply IH|]. by apply suffix_app_r.
Qed.

(** With the length of the list as fuel nothing is left to strip. *)
Lemma strip_leading_done
    (ps : list (list ascii)) (fuel : nat) (l : list ascii) :
  Forall (λ p, p ≠ []) ps →
  (length l ≤ fuel)%nat →
  Forall (λ p, ¬ p `prefix_of` JSString.strip_leading ps fuel l) ps.
Proof.
  intros Hps. revert l. induction fuel as [|fuel IH]; intros l Hl; simpl.
  - destruct l; [|simpl in Hl; lia].
    eapply Forall_impl; [exact Hps|]. intros p Hp [k Hk]. simpl in *.
    symmetry in Hk. by apply app_eq_nil in Hk as [? _].
  - destruct (JSString.strip_any ps l) as [l'|] eqn:E; [|by apply strip_any_None].
    apply strip_any_Some in E as (p & Hin & ->). apply IH.
    rewrite Forall_forall in Hps. specialize (Hps _ Hin).
    rewrite length_app in Hl. destruct p; [done|]. simpl in Hl. lia.
Qed.

Lemma white_space_not_empty : Forall (λ p, p ≠ []) JSString.white_space.
Proof. apply (bool_decide_unpack _). vm_compute. reflexivity. Qed.

Lemma chars_trimStart s :
  list_ascii_of_string (JSString.trimStart s)
  = JSString.strip_leading JSString.white_space (length (list_ascii_of_string s))
                  (list_ascii_of_string s).
Proof. unfold JSString.trimStart. apply list_ascii_of_string_of_list_ascii. Qed.

Lemma chars_trimEnd s :
  list_ascii_of_string (JSString.trimEnd s)
  = reverse (JSString.strip_leading (reverse <$> JSString.white_space)
               (length (reverse (list_ascii_of_string s)))
               (reverse (list_ascii_of_string s))).
Proof. unfold JSString.trimEnd. apply list_ascii_of_string_of_list_ascii. Qed.

Lemma trimStart_suffix s :
  list_ascii_of_string (JSString.trimStart s) `suffix_of` list_ascii_of_string s.
Proof. rewrite chars_trimStart. apply strip_leading_suffix. Qed.

Lemma trimEnd_prefix s :
  list_ascii_of_string (JSString.trimEnd s) `prefix_of` list_ascii_of_string s.
Proof.
  rewrite chars_trimEnd.
  rewrite <- (reverse_involutive (list_ascii_of_string s)) at 3.
  apply suffix_prefix_reverse, strip_leading_suffix.
Qed.

Lemma trimStart_no_leading s :
  Forall (λ ws, ¬ ws `prefix_of` list_ascii_of_string (JSString.trimStart s))
         JSString.white_space.
Proof.
  rewrite chars_trimStart.
  apply strip_leading_done; [apply white_space_not_empty|done].
Qed.

Lemma trimEnd_no_trailing s :
  Forall (λ ws, ¬ ws `suffix_of` list_ascii_of_string (JSString.trimEnd s))
         JSString.white_space.
Proof.
  rewrite chars_trimEnd.
  assert (Forall (λ p, p ≠ []) (reverse <$> JSString.white_space)) as Hne
    by (apply (bool_decide_unpack _); vm_compute; reflexivity).
  pose proof (strip_leading_done _ _ (reverse (list_ascii_of_string s))
                Hne (le_n _)) as H.
  rewrite Forall_fmap in H. eapply Forall_impl; [exact H|].
  intros p Hp Hs. apply Hp.
  apply suffix_prefix_reverse in Hs. by rewrite reverse_involutive in Hs.
Qed.

(** [trim] leaves no white space at either end. *)
Lemma trim_no_white_space s :
  Forall (λ ws, ¬ ws `prefix_of` list_ascii_of_string (JSString.trim s)
                ∧ ¬ ws `suffix_of` list_ascii_of_string (JSString.trim s))
         JSString.white_space.
Proof.
  unfold JSString.trim. apply Forall_and. split; [|apply trimEnd_no_trailing].
  eapply Forall_impl; [apply (trimStart_no_leading s)|].
  intros ws Hws Hp. apply Hws. etrans; [exact Hp|apply trimEnd_prefix].
Qed.

Lemma trim_chars c s :
  c ∈ list_ascii_of_string (JSString.trim s) → c ∈ list_ascii_of_string s.
Proof.
  unfold JSString.trim. intros Hc.
  destruct (trimEnd_prefix (JSString.trimStart s)) as [k1 Hk1].
  destruct (trimStart_suffix s) as [k2 Hk2].
  rewrite Hk2, Hk1. apply elem_of_app. right. apply elem_of_app. by left.
Qed.

Lemma labelSlugs_clean slugsLabel slug :
  slug ∈ labelSlugs slugsLabel → clean_slug slug.
Proof.
  unfold labelSlugs. intros [Ht Hin]%list_elem_of_filter.
  apply list_elem_of_fmap in Hin as (piece & -> & Hin).
  pose proof (split_no_separator "," slugsLabel) as Hsep.
  rewrite Forall_forall in Hsep. specialize (Hsep _ Hin).
  unfold clean_slug. split_and!.
  - intros E. by rewrite E in Ht.
  - intros Hc. by apply Hsep, trim_chars.
  - apply trim_no_white_space.
Qed.

(** What one container alone yields. *)
Lemma scanContainer_alone ip containerInfo slug backend :
  get slug (scanContainer ip empty containerInfo) = Some backend
  ↔ ∃ slugsLabel publicPort,
      Labels containerInfo !! "router.slug" = Some slugsLabel
      ∧ slug ∈ labelSlugs slugsLabel
      ∧ firstPublicPort containerInfo = Some publicPort
      ∧ backend = ip +:+ ":" +:+ JSString.of_number publicPort.
Proof.
  unfold scanContainer, firstPublicPort, labelSlugs.
  destruct (Labels containerInfo !! "router.slug") as [slugsLabel|];
    [|split; [done|by intros (? & ? & ? & _)]].
  destruct (JSString.truthy slugsLabel) eqn:Ht.
  - cbv zeta.
    destruct ((Ports containerInfo ≫= head) ≫= PublicPort) as [publicPort|];
      [|split; [done|by intros (? & ? & _ & _ & ? & _)]].
    destruct (decide (publicPort = 0%Z));
      [split; [done|by intros (? & ? & _ & _ & ? & _)]|].
    rewrite get_set_slugs. split.
    + case_decide; [|done]. intros [= <-]. by exists slugsLabel, publicPort.
    + intros (? & ? & [= <-] & Hin & [= <-] & ->). by rewrite decide_True.
  - split; [done|]. intros (? & ? & [= <-] & Hin & _).
    destruct slugsLabel; [|done]. by apply elem_of_nil in Hin.
Qed.

(** Where an entry of [getDockerRoutes] comes from. *)
Lemma scan_origin ip (containers : list ContainerInfo) routes slug backend :
  get slug (foldl (scanContainer ip) routes containers) = Some backend →
  get slug routes = Some backend
  ∨ ∃ containerInfo,
      containerInfo ∈ containers
      ∧ get slug (scanContainer ip empty containerInfo) = Some backend.
Proof.
  induction containers as [|c cs IH] using rev_ind; [by left|].
  rewrite foldl_app. simpl. rewrite scanContainer_get.
  destruct (get slug (scanContainer ip empty c)) as [b|] eqn:E.
  - intros [= ->]. right. exists c. split; [|done].
    apply elem_of_app. right. left.
  - intros [?|(c' & Hin & Hc')]%IH; [by left|right].
    exists c'. split; [|done]. apply elem_of_app. by left.
Qed.

Lemma scanContainer_idle ip routes containerInfo :
  contributes containerInfo = false →
  scanContainer ip routes containerInfo = routes.
Proof.
  unfold contributes, scanContainer, firstPublicPort.
  destruct (Labels containerInfo !! "router.slug") as [slugsLabel|]; [|done].
  destruct (JSString.truthy slugsLabel); [|done]. cbv zeta. simpl.
  destruct ((Ports containerInfo ≫= head) ≫= PublicPort) as [publicPort|];
    [|done].
  destruct (decide (publicPort = 0%Z)); [done|].
  intros Hb. apply bool_decide_eq_false in Hb. destruct Hb. by eexists.
Qed.

End SlugFacts.

(** ** More on the desired mapping *)

Module NameFacts.
Import JSMap JSMapFacts BuildFacts.

Lemma chars_append s1 s2 :
  list_ascii_of_string (s1 +:+ s2)
  = list_ascii_of_string s1 ++ list_ascii_of_string s2.
Proof. induction s1 as [|c s1 IH]; simpl; [done|]. by rewrite IH. Qed.

Lemma dotted_name slug suffix :
  "."%char ∈ list_ascii_of_string (slug +:+ "." +:+ suffix).
Proof. rewrite chars_append. apply elem_of_app. right. left. Qed.

Lemma has_last_write name (writes : list (string * string)) :
  has name (of_entries writes) = true ↔ name ∈ writes.*1.
Proof.
  unfold has, of_entries. rewrite get_set_all. simpl.
  destruct (last_write name writes) as [v|] eqn:E.
  - split; [intros _|done]. apply last_write_elem in E.
    apply list_elem_of_fmap. by exists (name, v).
  - apply last_write_None in E. by split.
Qed.

Lemma set_set k v m : set k v (set k v m) = set k v m.
Proof.
  induction m as [|[k' v'] m IH]; simpl.
  - by rewrite decide_True.
  - destruct (decide (k = k')) as [->|Hne]; simpl.
    + by rewrite decide_True.
    + by rewrite decide_False, IH.
Qed.

Lemma no_write_last name (writes : list (string * string)) :
  Forall (λ write, write.1 ≠ name) writes → last_write name writes = None.
Proof.
  intros Hall. apply last_write_None. intros Hin.
  apply list_elem_of_fmap in Hin as ([k v] & -> & Hin).
  rewrite Forall_forall in Hall. by apply (Hall _ Hin).
Qed.

Lemma has_buildDesiredRoutes config dockerRoutes name :
  has name (buildDesiredRoutes config dockerRoutes) = true
  ↔ (∃ slug backend suffix,
       (slug, backend) ∈ entries dockerRoutes
       ∧ suffix ∈ default_domain_suffix config
       ∧ name = slug +:+ "." +:+ suffix)
    ∨ (∃ slug manualConfig suffix,
         (slug, manualConfig) ∈ manual config
         ∧ suffix ∈ manualSuffixes config manualConfig
         ∧ name = fullAddress slug suffix).
Proof.
  rewrite buildDesiredRoutes_writes, has_last_write, fmap_app, elem_of_app.
  rewrite !list_elem_of_fmap. split.
  - intros [([k v] & -> & Hin)|([k v] & -> & Hin)]; [left|right].
    + apply elem_of_dockerWrites in Hin as (slug & suffix & ? & ? & ?).
      by exists slug, v, suffix.
    + apply elem_of_manualWrites in Hin as (slug & mc & suffix & ? & ? & ? & _).
      by exists slug, mc, suffix.
  - intros [(slug & backend & suffix & ? & ? & ->)
           |(slug & mc & suffix & ? & ? & ->)]; [left|right].
    + exists (slug +:+ "." +:+ suffix, backend). split; [done|].
      apply elem_of_dockerWrites. by exists slug, suffix.
    + exists (fullAddress slug suffix, manualBackend mc). split; [done|].
      apply elem_of_manualWrites. by exists slug, mc, suffix.
Qed.

End NameFacts.

Import JSMapFacts BuildFacts NameFacts.

(** X1. The names of the desired mapping are exactly the names the two
    sources write: [slug.suffix] for a container route and a default suffix,
    and the route name of a manual entry for each suffix of its list. *)
Theorem desired_route_names
    (config : Config) (dockerRoutes : JSMap.t) (name : string) :
  JSMap.has name (buildDesiredRoutes config dockerRoutes) = true
  ↔ (∃ slug backend suffix,
       (slug, backend) ∈ JSMap.entries dockerRoutes
       ∧ suffix ∈ default_domain_suffix config
       ∧ name = slug +:+ "." +:+ suffix)
    ∨ (∃ slug manualConfig suffix,
         (slug, manualConfig) ∈ manual config
         ∧ suffix ∈ manualSuffixes config manualConfig
         ∧ name = fullAddress slug suffix).
Proof. apply has_buildDesiredRoutes. Qed.

(** X2. A container route that no manual entry names is kept: when [slug] has
    backend [backend] in the container routes, no manual entry writes
    [slug.suffix] and no other slug writes it with another backend, the
    desired mapping gives [slug.suffix] that backend. *)
Theorem container_route_is_kept
    (config : Config) (dockerRoutes : JSMap.t) (slug backend suffix : string) :
  (slug, backend) ∈ JSMap.entries dockerRoutes →
  suffix ∈ default_domain_suffix config →
  Forall (λ write, write.1 ≠ slug +:+ "." +:+ suffix) (manualWrites config) →
  Forall (λ write, write.1 = slug +:+ "." +:+ suffix → write.2 = backend)
         (dockerWrites config dockerRoutes) →
  JSMap.get (slug +:+ "." +:+ suffix) (buildDesiredRoutes config dockerRoutes)
  = Some backend.
Proof.
  intros Hslug Hsuffix Hmanual Hdocker.
  rewrite buildDesiredRoutes_get, (no_write_last _ _ Hmanual).
  apply last_write_agreed; [|done].
  apply elem_of_dockerWrites. by exists slug, suffix.
Qed.

Lemma container_route_is_kept_witness :
  JSMap.get "b.lan"
    (buildDesiredRoutes sample_config (getDockerRoutes sample_world).1)
  = Some "192.168.1.10:25565".
Proof.
  apply (container_route_is_kept sample_config (getDockerRoutes sample_world).1
           "b" "192.168.1.10:25565" "lan");
    apply (bool_decide_unpack _); vm_compute; reflexivity.
Defined.

(** X3. With an empty default suffix list the containers yield no route at
    all: the desired mapping is built from the manual entries alone, and
    among them only those with an [override_suffix] write anything. *)
Theorem no_default_suffix_no_container_route
    (config : Config) (dockerRoutes : JSMap.t) :
  default_domain_suffix config = [] →
  buildDesiredRoutes config dockerRoutes = buildDesiredRoutes config JSMap.empty
  ∧ (∀ name,
       JSMap.has name (buildDesiredRoutes config dockerRoutes) = true
       ↔ ∃ slug manualConfig suffixes suffix,
           (slug, manualConfig) ∈ manual config
           ∧ override_suffix manualConfig = Some suffixes
           ∧ suffix ∈ suffixes
           ∧ name = fullAddress slug suffix).
Proof.
  intros Hd.
  assert (∀ dr, dockerWrites config dr = []) as Hnone.
  { intros dr. unfold dockerWrites. rewrite Hd.
    induction (JSMap.entries dr) as [|[slug backend] l IH]; [done|].
    by rewrite bind_cons, IH. }
  split.
  - by rewrite !buildDesiredRoutes_writes, !Hnone.
  - intros name. rewrite has_buildDesiredRoutes. split.
    + intros [(slug & backend & suffix & _ & Hs & _)|(slug & mc & suffix & Hm & Hs & ->)].
      * rewrite Hd in Hs. by apply elem_of_nil in Hs.
      * unfold manualSuffixes in Hs.
        destruct (override_suffix mc) as [suffixes|] eqn:E.
        -- by exists slug, mc, suffixes, suffix.
        -- rewrite Hd in Hs. by apply elem_of_nil in Hs.
    + intros (slug & mc & suffixes & suffix & Hm & Ho & Hs & ->). right.
      exists slug, mc, suffix. split_and!; [done| |done].
      unfold manualSuffixes. by rewrite Ho.
Qed.

(** X4. A manual entry all of whose suffixes contain a '.' yields one route,
    whatever the number of suffixes: its bare slug, mapped to its backend. *)
Theorem dotted_suffixes_give_one_route
    (config : Config) (slug : string) (manualConfig : ManualServerConfig)
    (desiredRoutes : JSMap.t) :
  manualSuffixes config manualConfig ≠ [] →
  Forall (λ suffix, "."%char ∈ list_ascii_of_string suffix)
         (manualSuffixes config manualConfig) →
  processManualEntries
    {| default_domain_suffix := default_domain_suffix config;
       manual := [(slug, manualConfig)] |} desiredRoutes
  = JSMap.set slug (manualBackend manualConfig) desiredRoutes.
Proof.
  unfold processManualEntries. simpl.
  change (manualSuffixes _ manualConfig) with (manualSuffixes config manualConfig).
  generalize (manualSuffixes config manualConfig). intros suffixes Hne Hall.
  destruct suffixes as [|suffix suffixes]; [done|]. clear Hne.
  apply Forall_cons in Hall as [Hdot Hall]. cbn [foldl].
  assert (fullAddress slug suffix = slug) as ->.
  { unfold fullAddress. apply includes_dot in Hdot. by rewrite Hdot. }
  generalize (set_set slug (manualBackend manualConfig) desiredRoutes).
  generalize (JSMap.set slug (manualBackend manualConfig) desiredRoutes).
  induction Hall as [|suffix' suffixes Hdot' _ IH]; intros m Hm; [done|].
  cbn [foldl].
  assert (fullAddress slug suffix' = slug) as ->.
  { unfold fullAddress. apply includes_dot in Hdot'. by rewrite Hdot'. }
  rewrite Hm. by apply IH.
Qed.

Lemma dotted_suffixes_give_one_route_witness :
  processManualEntries
    {| default_domain_suffix := ["example.com"; "example.org"];
       manual := [("foo", {| host := "10.0.0.5"; port := 9000;
                              override_suffix := None |})] |} sample_desired
  = JSMap.set "foo" "10.0.0.5:9000" sample_desired.
Proof.
  apply (dotted_suffixes_give_one_route
           {| default_domain_suffix := ["example.com"; "example.org"];
              manual := [] |}
           "foo" {| host := "10.0.0.5"; port := 9000; override_suffix := None |}
           sample_desired).
  - simpl. discriminate.
  - apply (bool_decide_unpack _). vm_compute. reflexivity.
Defined.

(** X5. The name of a container route always contains a '.': the slug is
    always followed by ".suffix", a suffix that itself contains a '.' is not
    treated as a full name there.  So a name without a '.' gets its backend
    from the manual entries alone. *)
Theorem container_names_are_dotted
    (config : Config) (dockerRoutes : JSMap.t) (name : string) :
  (JSMap.has name (processDockerContainers config dockerRoutes JSMap.empty) = true →
   "."%char ∈ list_ascii_of_string name)
  ∧ ("."%char ∉ list_ascii_of_string name →
     JSMap.get name (buildDesiredRoutes config dockerRoutes)
     = JSMap.get name (buildDesiredRoutes config JSMap.empty)).
Proof.
  assert (name ∈ (dockerWrites config dockerRoutes).*1 →
          "."%char ∈ list_ascii_of_string name) as Hdot.
  { intros ([k v] & -> & Hin)%list_elem_of_fmap.
    apply elem_of_dockerWrites in Hin as (slug & suffix & _ & _ & ->).
    apply dotted_name. }
  split.
  - rewrite processDockerContainers_writes.
    intros Hhas. by apply Hdot, has_last_write.
  - intros Hno. rewrite !buildDesiredRoutes_get.
    destruct (last_write name (manualWrites config)); [done|].
    rewrite (proj2 (last_write_None name (dockerWrites config dockerRoutes)));
      [done|].
    intros Hin. by apply Hno, Hdot.
Qed.

Lemma container_names_are_dotted_witness :
  "."%char ∈ list_ascii_of_string "a.lan"
  ∧ JSMap.get "foo"
      (buildDesiredRoutes sample_config (getDockerRoutes sample_world).1)
    = JSMap.get "foo" (buildDesiredRoutes sample_config JSMap.empty).
Proof.
  split.
  - apply (proj1 (container_names_are_dotted sample_config
                    (getDockerRoutes sample_world).1 "a.lan")).
    vm_compute. reflexivity.
  - apply (proj2 (container_names_are_dotted sample_config
                    (getDockerRoutes sample_world).1 "foo")).
    apply (bool_decide_unpack _). vm_compute. reflexivity.
Defined.

Lemma no_default_suffix_no_container_route_witness :
  buildDesiredRoutes no_suffix_config (getDockerRoutes sample_world).1
  = buildDesiredRoutes no_suffix_config JSMap.empty.
Proof.
  apply (no_default_suffix_no_container_route no_suffix_config
           (getDockerRoutes sample_world).1).
  reflexivity.
Defined.

(** * The scan of the containers *)

Import ScanFacts SlugFacts.

(** X6. Every slug of [getDockerRoutes] is clean: it is not empty, contains
    no comma and neither starts nor ends with a white space of ECMAScript
    (the ASCII ones, U+00A0, U+FEFF and the other Unicode spaces), however
    the label was written. *)
Theorem docker_slugs_are_clean (w : World) (slug : string) :
  JSMap.has slug (getDockerRoutes w).1 = true → clean_slug slug.
Proof.
  unfold getDockerRoutes, JSMap.has. simpl.
  destruct (JSMap.get slug _) as [backend|] eqn:E; [intros _|done].
  destruct (docker_containers w) as [containers|]; [|done]. simpl in E.
  apply scan_origin in E as [E|(c & _ & E)]; [done|].
  apply scanContainer_alone in E as (slugsLabel & _ & _ & Hin & _).
  by eapply labelSlugs_clean.
Qed.

Lemma docker_slugs_are_clean_witness : clean_slug "b".
Proof.
  apply (docker_slugs_are_clean sample_world "b"). vm_compute. reflexivity.
Defined.

(** A label written with a no-break space, a byte order mark and empty
    pieces stands for the slugs [a] and [b]. *)
Example untidy_label_slugs : labelSlugs untidy_label = ["a"; "b"].
Proof. vm_compute. reflexivity. Qed.

(** X7. Every entry of [getDockerRoutes] comes from a container of the scan:
    one whose label lists the slug and whose first port is published, the
    backend being the host address followed by that port. *)
Theorem docker_route_origin (w : World) (slug backend : string) :
  JSMap.get slug (getDockerRoutes w).1 = Some backend →
  ∃ containers containerInfo slugsLabel publicPort,
    docker_containers w = Some containers
    ∧ containerInfo ∈ containers
    ∧ Labels containerInfo !! "router.slug" = Some slugsLabel
    ∧ slug ∈ labelSlugs slugsLabel
    ∧ firstPublicPort containerInfo = Some publicPort
    ∧ publicPort ≠ 0%Z
    ∧ backend = DOCKER_HOST_IP w +:+ ":" +:+ JSString.of_number publicPort.
Proof.
  unfold getDockerRoutes. simpl.
  destruct (docker_containers w) as [containers|]; [|done]. simpl.
  intros [E|(c & Hc & E)]%scan_origin; [discriminate E|].
  apply scanContainer_alone in E as (slugsLabel & publicPort & ? & ? & Hp & ?).
  exists containers, c, slugsLabel, publicPort. split_and!; try done.
  intros ->. unfold firstPublicPort in Hp.
  destruct ((Ports c ≫= head) ≫= PublicPort) as [p|]; [|done].
  destruct (decide (p = 0%Z)); congruence.
Qed.

Lemma docker_route_origin_witness :
  ∃ containers containerInfo slugsLabel publicPort,
    docker_containers sample_world = Some containers
    ∧ containerInfo ∈ containers
    ∧ Labels containerInfo !! "router.slug" = Some slugsLabel
    ∧ "a" ∈ labelSlugs slugsLabel
    ∧ firstPublicPort containerInfo = Some publicPort
    ∧ publicPort ≠ 0%Z
    ∧ "192.168.1.10:25566"
      = DOCKER_HOST_IP sample_world +:+ ":" +:+ JSString.of_number publicPort.
Proof.
  apply (docker_route_origin sample_world "a" "192.168.1.10:25566").
  vm_compute. reflexivity.
Defined.

(** X8. Containers without the label, with an empty label, or whose first
    port is not published are ignored, also when a later port of theirs is
    published: the scan gives what it gives on the other containers. *)
Theorem idle_containers_are_ignored (ip : string) (containers : list ContainerInfo) :
  dockerRoutesOf ip (Some containers)
  = dockerRoutesOf ip (Some (filter (λ c, contributes c = true) containers)).
Proof.
  simpl. generalize JSMap.empty.
  induction containers as [|c cs IH]; intros routes; [done|].
  rewrite filter_cons. simpl. destruct (contributes c) eqn:E.
  - rewrite decide_True by done. simpl. apply IH.
  - rewrite decide_False by done. rewrite scanContainer_idle by done. apply IH.
Qed.

Example idle_containers_sample :
  dockerRoutesOf "127.0.0.1" (Some (idle_containers ++ sample_containers))
  = dockerRoutesOf "127.0.0.1" (Some sample_containers).
Proof. vm_compute. reflexivity. Qed.

(** ** Requests that fail *)

Module FailureFacts.
Import JSMap JSMapFacts RunFacts DiffFacts CycleFacts.

Lemma addOrUpdateRoute_router address backend w :
  router (addOrUpdateRoute address backend w).2 = router w
  ∨ router (addOrUpdateRoute address backend w).2
    = <[address := backend]> (router w).
Proof.
  unfold addOrUpdateRoute, send, exchange, router_post, mbind, M_bind, mret, M_ret.
  simpl. destruct (outages w) as [|[] ?]; simpl; auto.
Qed.

Lemma deleteRoute_router address w :
  router (deleteRoute address w).2 = router w
  ∨ router (deleteRoute address w).2 = delete address (router w).
Proof.
  unfold deleteRoute, send, exchange, router_delete, mbind, M_bind, mret, M_ret.
  simpl. destruct (outages w) as [|[] ?]; simpl; auto.
Qed.

Lemma addOrUpdateRoute_cache address backend w :
  lastKnownConfig (addOrUpdateRoute address backend w).2 = lastKnownConfig w.
Proof.
  unfold addOrUpdateRoute, send, exchange, router_post, mbind, M_bind, mret, M_ret.
  simpl. by destruct (outages w) as [|[] ?].
Qed.

Lemma deleteRoute_cache address w :
  lastKnownConfig (deleteRoute address w).2 = lastKnownConfig w.
Proof.
  unfold deleteRoute, send, exchange, router_delete, mbind, M_bind, mret, M_ret.
  simpl. by destruct (outages w) as [|[] ?].
Qed.

Lemma add_loop_between desiredRoutes currentMappings r0
    (l : list (string * string)) changesMade w :
  (∀ k v, (k, v) ∈ l → get k desiredRoutes = Some v) →
  between desiredRoutes r0 (router w) →
  let w' :=
    (for_of (λ (changesMade : bool) '(address, backend),
               if decide (get address currentMappings ≠ Some backend)
               then addOrUpdateRoute address backend;; mret true
               else mret changesMade)
            changesMade l w).2 in
  between desiredRoutes r0 (router w')
  ∧ lastKnownConfig w' = lastKnownConfig w.
Proof.
  revert changesMade w. induction l as [|[k v] l IH]; intros b w Hl Hw; [done|].
  cbn [for_of]. rewrite run_bind.
  assert (∀ k' v', (k', v') ∈ l → get k' desiredRoutes = Some v') as Hl'.
  { intros k' v' Hin. apply Hl. by right. }
  case_decide.
  - rewrite run_bind, run_ret. cbn [fst snd].
    destruct (IH true (addOrUpdateRoute k v w).2 Hl') as [Hb Hc].
    + intros name.
      destruct (addOrUpdateRoute_router k v w) as [-> | ->]; [done|].
      destruct (decide (name = k)) as [->|Hne].
      * right. rewrite lookup_insert_eq. symmetry. apply Hl. left.
      * by rewrite lookup_insert_ne.
    + split; [done|]. by rewrite Hc, addOrUpdateRoute_cache.
  - rewrite run_ret. cbn [fst snd]. by apply IH.
Qed.

Lemma delete_loop_between desiredRoutes r0
    (l : list (string * string)) changesMade w :
  between desiredRoutes r0 (router w) →
  let w' :=
    (for_of (λ (changesMade : bool) '(address, _),
               if negb (has address desiredRoutes)
               then deleteRoute address;; mret true
               else mret changesMade)
            changesMade l w).2 in
  between desiredRoutes r0 (router w')
  ∧ lastKnownConfig w' = lastKnownConfig w.
Proof.
  revert changesMade w. induction l as [|[k v] l IH]; intros b w Hw; [done|].
  cbn [for_of]. rewrite run_bind.
  destruct (has k desiredRoutes) eqn:Hk; cbn [negb].
  - rewrite run_ret. cbn [fst snd]. by apply IH.
  - rewrite run_bind, run_ret. cbn [fst snd].
    destruct (IH true (deleteRoute k w).2) as [Hb Hc].
    + intros name.
      destruct (deleteRoute_router k w) as [-> | ->]; [done|].
      destruct (decide (name = k)) as [->|Hne].
      * right. rewrite lookup_delete_eq. symmetry.
        unfold has in Hk. by destruct (get k desiredRoutes).
      * by rewrite lookup_delete_ne.
    + split; [done|]. by rewrite Hc, deleteRoute_cache.
Qed.

Lemma applyChanges_between desiredRoutes currentMappings w :
  wf desiredRoutes →
  between desiredRoutes (router w)
          (router (applyChanges desiredRoutes currentMappings w).2)
  ∧ lastKnownConfig (applyChanges desiredRoutes currentMappings w).2
    = lastKnownConfig w.
Proof.
  intros HD. unfold applyChanges, entries. rewrite run_bind.
  destruct (add_loop_between desiredRoutes currentMappings (router w)
              desiredRoutes false w) as [Ha Hc].
  { intros k v. by apply wf_get. }
  { intros name. by left. }
  match goal with |- context [for_of ?f (?r).1 _ (?r).2] =>
    destruct (delete_loop_between desiredRoutes (router w) currentMappings
                r.1 r.2 Ha) as [Hd Hc'] end.
  split; [done|]. by rewrite Hc', Hc.
Qed.

Lemma getMcRouterRoutes_cache w :
  lastKnownConfig (getMcRouterRoutes w).2 = lastKnownConfig w.
Proof. rewrite getMcRouterRoutes_run. by destruct (outages w) as [|[] ?]. Qed.

(** The names of the requests of a diff are pairwise distinct. *)
Lemma additions_names desiredRoutes currentMappings :
  request_name <$> additions desiredRoutes currentMappings
  `sublist_of` desiredRoutes.*1.
Proof.
  induction desiredRoutes as [|[k v] D IH]; [done|].
  cbn [additions omap list_omap]. fold (additions D currentMappings).
  rewrite fmap_cons. case_decide.
  - rewrite fmap_cons. by apply sublist_skip.
  - by apply sublist_cons.
Qed.

Lemma deletions_names desiredRoutes currentMappings :
  request_name <$> deletions desiredRoutes currentMappings
  `sublist_of` currentMappings.*1.
Proof.
  induction currentMappings as [|[k v] O IH]; [done|].
  cbn [deletions omap list_omap]. fold (deletions desiredRoutes O).
  rewrite fmap_cons. destruct (negb (has k desiredRoutes)).
  - rewrite fmap_cons. by apply sublist_skip.
  - by apply sublist_cons.
Qed.

Lemma diff_names_NoDup desiredRoutes currentMappings :
  wf desiredRoutes → wf currentMappings →
  NoDup (request_name <$> (additions desiredRoutes currentMappings
                           ++ deletions desiredRoutes currentMappings)).
Proof.
  intros HD HO. rewrite fmap_app. apply NoDup_app. split_and!.
  - eapply sublist_NoDup; [exact HD|apply additions_names].
  - intros name Ha Hd.
    apply list_elem_of_fmap in Ha as ([a b|a] & -> & Ha); simpl.
    + apply elem_of_additions in Ha as [Ha _].
      apply list_elem_of_fmap in Hd as ([a' b'|a'] & Heq & Hd); simpl in Heq.
      * pose proof (deletions_delete desiredRoutes currentMappings) as Hf.
        rewrite Forall_forall in Hf. by apply Hf in Hd.
      * subst a'. apply elem_of_deletions in Hd as [_ Hd].
        apply has_false in Hd. destruct Hd.
        apply list_elem_of_fmap. by exists (a, b).
    + pose proof (additions_add desiredRoutes currentMappings) as Hf.
      rewrite Forall_forall in Hf. by apply Hf in Ha.
  - eapply sublist_NoDup; [exact HO|apply deletions_names].
Qed.

End FailureFacts.

(** * Failing requests, outcomes and the cached configuration *)

Import RunFacts DiffFacts CycleFacts RouterFacts FailureFacts.

(** X9. The failure of a request stops nothing: the requests that the diff
    sends, and whether it reports changes, are the same whichever exchanges
    fail. *)
Theorem requests_ignore_failures
    (desiredRoutes currentMappings : JSMap.t) (w w' : World) :
  calls_of (applyChanges desiredRoutes currentMappings) w
  = calls_of (applyChanges desiredRoutes currentMappings) w'
  ∧ (applyChanges desiredRoutes currentMappings w).1
    = (applyChanges desiredRoutes currentMappings w').1.
Proof.
  destruct (applyChanges_steps desiredRoutes currentMappings w) as [Hs Hb].
  destruct (applyChanges_steps desiredRoutes currentMappings w') as [Hs' Hb'].
  apply steps_calls_of in Hs, Hs'. split; congruence.
Qed.

(** X10. Whatever fails during a cycle, each name of the router's table ends
    either as it was or as the desired mapping has it (absent when the
    desired mapping does not have it): no other backend is ever written and
    no desired name is ever removed. *)
Theorem failures_do_no_harm (w : World) (name : string) :
  router (syncRoutes w).2 !! name = router w !! name
  ∨ ∃ config,
      config_file w = Some config
      ∧ router (syncRoutes w).2 !! name
        = JSMap.get name (buildDesiredRoutes config (getDockerRoutes w).1).
Proof.
  rewrite syncRoutes_run.
  destruct (config_file w) as [config|]; [|by left]. cbv zeta.
  set (w0 := with_lastKnownConfig (Some config) w).
  destruct (getMcRouterRoutes_quiet w0) as (_ & Hr & _).
  destruct (getMcRouterRoutes w0).1 as [currentRoutes|]; cbn [snd].
  - destruct (applyChanges_between
                (buildDesiredRoutes config (getDockerRoutes w).1)
                (JSMap.of_entries currentRoutes) (getMcRouterRoutes w0).2)
      as [Hb _]; [apply BuildFacts.buildDesiredRoutes_wf|].
    destruct (Hb name) as [Hn|Hn]; rewrite Hn; [left|right].
    + by rewrite Hr.
    + by exists config.
  - left. by rewrite Hr.
Qed.

(** A cycle in which the fetch succeeds and every request fails: eight
    requests are sent, the router keeps its table, and the cycle still ends
    with "Changes were applied". *)
Example all_requests_fail :
  (syncRoutes failing_world).1 = ChangesApplied
  ∧ length (calls_of syncRoutes failing_world) = 8
  ∧ router (syncRoutes failing_world).2 = router failing_world.
Proof. vm_compute. done. Qed.

(** X11. The outcome of a cycle tells what happened: skipped for the
    configuration exactly when it cannot be loaded, skipped for the fetch
    exactly when it loads and the fetch fails, "no changes" exactly when no
    request was sent, and "changes applied" exactly when at least one
    request was sent, whether or not it succeeded. *)
Theorem outcome_tells_requests (w : World) :
  match (syncRoutes w).1 with
  | SkippedConfig => config_file w = None
  | SkippedFetch =>
      is_Some (config_file w) ∧ (getMcRouterRoutes w).1 = None
  | NoChanges =>
      is_Some (config_file w) ∧ is_Some (getMcRouterRoutes w).1
      ∧ calls_of syncRoutes w = []
  | ChangesApplied =>
      is_Some (config_file w) ∧ is_Some (getMcRouterRoutes w).1
      ∧ calls_of syncRoutes w ≠ []
  end.
Proof.
  rewrite syncRoutes_calls, syncRoutes_run.
  destruct (config_file w) as [config|]; [|done]. cbv zeta.
  rewrite getMcRouterRoutes_lastKnownConfig.
  destruct (getMcRouterRoutes w).1 as [currentRoutes|]; cbn [fst]; [|done].
  match goal with |- context [applyChanges ?D ?O ?w2] =>
    destruct (applyChanges_steps D O w2) as [_ Hb] end.
  cbv zeta in Hb. rewrite Hb. case_bool_decide; by split_and!.
Qed.

(** X12. [lastKnownConfig] holds the configuration loaded last: a cycle that
    loads one stores it, whatever happens afterwards, and a cycle that
    cannot load one changes nothing at all, not even asking the router. *)
Theorem last_known_config_is_last_loaded (w : World) :
  lastKnownConfig (syncRoutes w).2
  = match config_file w with
    | Some config => Some config
    | None => lastKnownConfig w
    end
  ∧ (config_file w = None → syncRoutes w = (SkippedConfig, w)).
Proof.
  rewrite syncRoutes_run.
  destruct (config_file w) as [config|]; [|done]. cbv zeta.
  split; [|done].
  set (w0 := with_lastKnownConfig (Some config) w).
  destruct (getMcRouterRoutes w0).1 as [currentRoutes|]; cbn [snd].
  - match goal with |- context [applyChanges ?D ?O ?w2] =>
      destruct (applyChanges_between D O w2) as [_ Hc] end;
      [apply BuildFacts.buildDesiredRoutes_wf|].
    by rewrite Hc, getMcRouterRoutes_cache.
  - by rewrite getMcRouterRoutes_cache.
Qed.

Lemma last_known_config_is_last_loaded_witness :
  let w := {| config_file := None;
              docker_containers := Some sample_containers;
              env_DOCKER_HOST_IP := None;
              router := {[ "a.lan" := "192.168.1.10:25566" ]};
              outages := [true];
              issued := [];
              lastKnownConfig := Some sample_config |} in
  syncRoutes w = (SkippedConfig, w)
  ∧ lastKnownConfig (syncRoutes failing_world).2 = Some sample_config.
Proof.
  intros w. split.
  - apply (proj2 (last_known_config_is_last_loaded w)). reflexivity.
  - exact (proj1 (last_known_config_is_last_loaded failing_world)).
Defined.

(** X13. A cycle never sends two requests about the same name. *)
Theorem one_request_per_name (w : World) :
  NoDup (request_name <$> calls_of syncRoutes w).
Proof.
  rewrite syncRoutes_calls.
  destruct (config_file w) as [config|]; [|apply NoDup_nil_2].
  destruct (getMcRouterRoutes w).1 as [currentRoutes|]; [|apply NoDup_nil_2].
  apply diff_names_NoDup.
  - apply BuildFacts.buildDesiredRoutes_wf.
  - apply JSMapFacts.wf_of_entries.
Qed.

(** ** Cycle after cycle *)

Module ServiceFacts.
Import JSMap JSMapFacts RunFacts DiffFacts CycleFacts RouterFacts BuildFacts.

Lemma getDockerRoutes_same_inputs w w' :
  same_inputs w w' → (getDockerRoutes w').1 = (getDockerRoutes w).1.
Proof.
  intros (_ & Hd & He). unfold getDockerRoutes, DOCKER_HOST_IP. simpl.
  by rewrite Hd, He.
Qed.

Lemma same_inputs_trans w1 w2 w3 :
  same_inputs w1 w2 → same_inputs w2 w3 → same_inputs w1 w3.
Proof.
  intros (? & ? & ?) (? & ? & ?). unfold same_inputs. split_and!; congruence.
Qed.

(** A cycle in which nothing fails leaves the service settled. *)
Lemma cycle_settles w config :
  all_succeed w →
  config_file w = Some config →
  settled config (syncRoutes w).2 ∧ same_inputs w (syncRoutes w).2.
Proof.
  intros Hok Hc.
  set (D := buildDesiredRoutes config (getDockerRoutes w).1).
  pose proof (buildDesiredRoutes_wf config (getDockerRoutes w).1) as HD.
  set (w0 := with_lastKnownConfig (Some config) w).
  destruct (getMcRouterRoutes_quiet w0) as (_ & Hr0 & Hq0).
  destruct (Hq0 Hok) as [Hok0 Hf0].
  pose proof (getMcRouterRoutes_same_inputs w0) as Hs0.
  rewrite syncRoutes_run, Hc. cbv zeta. fold w0 D. rewrite Hf0. cbn [snd].
  destruct (applyChanges_converges D (of_entries (map_to_list (router w0)))
              (getMcRouterRoutes w0).2) as (Hok1 & Hs1 & Hheld);
    [done| |done|].
  { intros name. by rewrite get_map_to_list, Hr0. }
  assert (same_inputs w (applyChanges D (of_entries (map_to_list (router w0)))
                           (getMcRouterRoutes w0).2).2) as Hs.
  { eapply same_inputs_trans; [|exact Hs1].
    eapply same_inputs_trans; [|exact Hs0]. done. }
  split; [|done]. split_and!; [done| |].
  - destruct Hs as (-> & _). done.
  - intros name. by rewrite (getDockerRoutes_same_inputs _ _ Hs), Hheld.
Qed.

(** A cycle of a settled service does nothing and leaves it settled. *)
Lemma settled_cycle w config :
  settled config w →
  (syncRoutes w).1 = NoChanges
  ∧ issued (syncRoutes w).2 = issued w
  ∧ router (syncRoutes w).2 = router w
  ∧ settled config (syncRoutes w).2.
Proof.
  intros (Hok & Hc & Hheld).
  set (D := buildDesiredRoutes config (getDockerRoutes w).1) in *.
  pose proof (buildDesiredRoutes_wf config (getDockerRoutes w).1) as HD.
  set (w0 := with_lastKnownConfig (Some config) w).
  destruct (getMcRouterRoutes_quiet w0) as (Hi0 & Hr0 & Hq0).
  destruct (Hq0 Hok) as [Hok0 Hf0].
  pose proof (getMcRouterRoutes_same_inputs w0) as Hs0.
  rewrite syncRoutes_run, Hc. cbv zeta. fold w0 D. rewrite Hf0. cbn [snd fst].
  destruct (applyChanges_silent D (of_entries (map_to_list (router w0)))
              (getMcRouterRoutes w0).2) as [Hrun _]; [done| |].
  { intros name. by rewrite get_map_to_list, <- Hheld. }
  rewrite Hrun. cbn [fst snd]. split_and!; [done..|].
  assert (same_inputs w (getMcRouterRoutes w0).2) as Hs.
  { eapply same_inputs_trans; [|exact Hs0]. done. }
  split_and!; [done| |].
  - destruct Hs as (-> & _). done.
  - intros name. rewrite (getDockerRoutes_same_inputs _ _ Hs). fold D.
    by rewrite Hr0, <- Hheld.
Qed.

Lemma settled_trigger w config trigger :
  settled config w →
  (onTrigger trigger w).1 = quiet_outcome trigger
  ∧ issued (onTrigger trigger w).2 = issued w
  ∧ router (onTrigger trigger w).2 = router w
  ∧ settled config (onTrigger trigger w).2.
Proof.
  intros Hw. destruct (settled_cycle w config Hw) as (Ho & Hi & Hr & Hs).
  destruct trigger as [event|]; simpl.
  - unfold onWatchEvent. case_decide; [|done].
    rewrite run_bind, run_ret. cbn [fst snd]. by rewrite Ho.
  - unfold onTimerTick. rewrite run_bind, run_ret. cbn [fst snd]. by rewrite Ho.
Qed.

Lemma settled_triggers w config (triggers : list Trigger) outcomes :
  settled config w →
  let r := for_of (λ outcomes trigger,
                     outcome ← onTrigger trigger; mret (outcomes ++ [outcome]))
                  outcomes triggers w in
  r.1 = outcomes ++ (quiet_outcome <$> triggers)
  ∧ issued r.2 = issued w
  ∧ router r.2 = router w
  ∧ settled config r.2.
Proof.
  revert outcomes w. induction triggers as [|trigger triggers IH];
    intros outcomes w Hw.
  - simpl. by rewrite app_nil_r.
  - cbn [for_of]. rewrite run_bind, run_bind, run_ret. cbn [fst snd].
    destruct (settled_trigger w config trigger Hw) as (Ho & Hi & Hr & Hs).
    destruct (IH (outcomes ++ [(onTrigger trigger w).1])
                 (onTrigger trigger w).2 Hs) as (Ho' & Hi' & Hr' & Hs').
    cbv zeta in *. split_and!; [|congruence..|done].
    rewrite Ho', Ho, fmap_cons. by rewrite <- app_assoc.
Qed.

End ServiceFacts.

Import ServiceFacts.

(** X14. A service started where nothing fails and left alone (same
    configuration, same containers, callbacks one after the other): the
    startup cycle sends all the requests there are to send, every later
    cycle reports no changes, a watch event other than "change" runs no
    cycle, and the router ends holding the desired mapping. *)
Theorem only_startup_sends_requests
    (w : World) (config : Config) (triggers : list Trigger) :
  all_succeed w →
  config_file w = Some config →
  calls_of (main triggers) w = calls_of syncRoutes w
  ∧ (main triggers w).1.2 = quiet_outcome <$> triggers
  ∧ (∀ name,
       router (main triggers w).2 !! name
       = JSMap.get name (buildDesiredRoutes config (getDockerRoutes w).1)).
Proof.
  intros Hok Hc. unfold main, calls_of.
  rewrite run_bind, run_bind, run_ret. cbn [fst snd].
  destruct (cycle_settles w config Hok Hc) as [Hs Hsame].
  destruct (settled_triggers (syncRoutes w).2 config triggers [] Hs)
    as (Ho & Hi & Hr & _).
  cbv zeta in *. rewrite Hi, Ho, Hr. split_and!; [done..|].
  intros name. destruct Hs as (_ & _ & Hheld).
  by rewrite Hheld, (getDockerRoutes_same_inputs _ _ Hsame).
Qed.

Lemma only_startup_sends_requests_witness :
  let triggers := [TimerTick; WatchEvent "rename"; WatchEvent "change"] in
  calls_of (main triggers) sample_world = calls_of syncRoutes sample_world
  ∧ (main triggers sample_world).1.2 = [Some NoChanges; None; Some NoChanges].
Proof.
  intros triggers.
  destruct (only_startup_sends_requests sample_world sample_config triggers)
    as (Hcalls & Hout & _).
  - apply (bool_decide_unpack _). vm_compute. reflexivity.
  - reflexivity.
  - split; [exact Hcalls|exact Hout].
Defined.


